(** * Query-parameter state synchronisation (src/hooks/use-query-state.ts)

    A shallow embedding of the two hooks [useQueryState] and
    [useQueriesState], of their helpers [shouldUpdateQueryState],
    [updateQueryState] and [createQueryState], of the [URLSearchParams]
    object they work on, of [safeTry] (src/lib/utils.ts) and of the
    type-level [UniqueArray] check (src/lib/types.ts).

    Strings are byte strings: a JavaScript string is represented by its
    UTF-8 encoding, which is what the query-string serialiser works on. *)

From Stdlib Require Import String Ascii List Bool Arith.
Import ListNotations.
Local Open Scope list_scope.
Local Open Scope string_scope.

(** ** JavaScript truthiness of the values the hooks test *)

(** [!!value] for a string: the empty string is the only falsy string. *)
Definition truthy (s : string) : bool :=
  match s with
  | EmptyString => false
  | String _ _ => true
  end.

(** [!!x] for [x : string | undefined]. *)
Definition truthy_opt (o : option string) : bool :=
  match o with
  | Some s => truthy s
  | None => false
  end.

(** [x ?? d] *)
Definition nullish {A} (o : option A) (d : A) : A :=
  match o with
  | Some a => a
  | None => d
  end.

(** [a === b] for [a, b : string | undefined | null]. *)
Definition opt_eqb (a b : option string) : bool :=
  match a, b with
  | Some x, Some y => String.eqb x y
  | None, None => true
  | _, _ => false
  end.

(** ** The application/x-www-form-urlencoded format *)

Module UrlEncoded.

(** Bytes the serialiser leaves as they are: ASCII alphanumerics and
    [*], [-], [.], [_]. *)
Definition unreserved (c : ascii) : bool :=
  let n := nat_of_ascii c in
  (((48 <=? n) && (n <=? 57)) || ((65 <=? n) && (n <=? 90))
   || ((97 <=? n) && (n <=? 122))
   || (n =? 42) || (n =? 45) || (n =? 46) || (n =? 95))%nat.

Definition hex_digit (n : nat) : ascii :=
  if (n <? 10)%nat then ascii_of_nat (48 + n) else ascii_of_nat (55 + n).

Definition hex_value (c : ascii) : option nat :=
  let n := nat_of_ascii c in
  if ((48 <=? n) && (n <=? 57))%nat then Some (n - 48)
  else if ((65 <=? n) && (n <=? 70))%nat then Some (n - 55)
  else if ((97 <=? n) && (n <=? 102))%nat then Some (n - 87)
  else None.

(** One byte, serialised: itself, [+] for a space, or [%XX]. *)
Definition encode_byte (c : ascii) : string :=
  if unreserved c then String c ""
  else if Ascii.eqb c " " then "+"
  else String "%" (String (hex_digit (nat_of_ascii c / 16))
                  (String (hex_digit (nat_of_ascii c mod 16)) "")).

Fixpoint encode (s : string) : string :=
  match s with
  | EmptyString => ""
  | String c r => encode_byte c ++ encode r
  end.

(** The parser first replaces every [+] by a space ... *)
Fixpoint replace_plus (s : string) : string :=
  match s with
  | EmptyString => ""
  | String c r => String (if Ascii.eqb c "+" then " "%char else c) (replace_plus r)
  end.

(** ... and then percent-decodes: [%] followed by two hex digits is one
    byte, any other [%] stands for itself. *)
Fixpoint percent_decode (s : string) : string :=
  match s with
  | EmptyString => ""
  | String c r =>
      if Ascii.eqb c "%" then
        match r with
        | String a (String b r') =>
            match hex_value a, hex_value b with
            | Some x, Some y => String (ascii_of_nat (16 * x + y)) (percent_decode r')
            | _, _ => String c (percent_decode r)
            end
        | _ => String c (percent_decode r)
        end
      else String c (percent_decode r)
  end.

Definition decode (s : string) : string := percent_decode (replace_plus s).

(** Strict split on a separator byte: always at least one piece. *)
Fixpoint split (sep : ascii) (s : string) : list string :=
  match s with
  | EmptyString => [""]
  | String c r =>
      if Ascii.eqb c sep then "" :: split sep r
      else match split sep r with
           | h :: t => String c h :: t
           | [] => [String c ""]
           end
  end.

(** The bytes before the first [=] and the bytes after it; the whole
    sequence and nothing when there is no [=]. *)
Fixpoint break_eq (s : string) : string * string :=
  match s with
  | EmptyString => ("", "")
  | String c r =>
      if Ascii.eqb c "=" then ("", r)
      else let (n, v) := break_eq r in (String c n, v)
  end.

Definition parse_pair (bytes : string) : list (string * string) :=
  match bytes with
  | EmptyString => []
  | _ => let (n, v) := break_eq bytes in [(decode n, decode v)]
  end.

(** The urlencoded parser. *)
Definition parse (input : string) : list (string * string) :=
  flat_map parse_pair (split "&" input).

Definition serialize_pair (p : string * string) : string :=
  encode (fst p) ++ "=" ++ encode (snd p).

(** The urlencoded serialiser. *)
Fixpoint serialize (l : list (string * string)) : string :=
  match l with
  | [] => ""
  | [p] => serialize_pair p
  | p :: l' => serialize_pair p ++ "&" ++ serialize l'
  end.

End UrlEncoded.


(** ** The [URLSearchParams] object *)

Module URLSearchParams.

(** The object's list of name-value tuples, in order, duplicates kept. *)
Definition t : Type := list (string * string).

(** [new URLSearchParams(init)] for a string: a leading [?] is dropped,
    the rest is parsed. *)
Definition of_string (init : string) : t :=
  match init with
  | String c r => if Ascii.eqb c "?" then UrlEncoded.parse r else UrlEncoded.parse init
  | EmptyString => UrlEncoded.parse init
  end.

(** [get(name)]: the value of the first tuple of that name, or null. *)
Fixpoint get (p : t) (name : string) : option string :=
  match p with
  | [] => None
  | (n, v) :: r => if String.eqb n name then Some v else get r name
  end.

(** [has(name)] *)
Definition has (p : t) (name : string) : bool :=
  existsb (fun e => String.eqb (fst e) name) p.

(** [delete(name)]: removes every tuple of that name. *)
Definition delete (p : t) (name : string) : t :=
  filter (fun e => negb (String.eqb (fst e) name)) p.

(** [set(name, value)]: the first tuple of that name takes the value and
    the others are removed; without one, the tuple is appended. *)
Fixpoint set (p : t) (name value : string) : t :=
  match p with
  | [] => [(name, value)]
  | (n, v) :: r =>
      if String.eqb n name then (n, value) :: delete r name
      else (n, v) :: set r name value
  end.

(** [toString()] *)
Definition toString (p : t) : string := UrlEncoded.serialize p.

End URLSearchParams.

(** ** Options *)

Inductive OnParseError : Type := fallback | remove.

Definition OnParseError_eqb (a b : OnParseError) : bool :=
  match a, b with
  | fallback, fallback | remove, remove => true
  | _, _ => false
  end.

(** A property of an options object: missing, there with the value
    [undefined], or there with a value. *)
Inductive Property (A : Type) : Type :=
| missing
| undefined
| given (a : A).
Arguments missing {A}.
Arguments undefined {A}.
Arguments given {A} a.

(** Reading the property: [undefined] in the first two cases. *)
Definition read {A} (p : Property A) : option A :=
  match p with
  | given a => Some a
  | missing | undefined => None
  end.

(** Whether the object has the property as a key of its own. *)
Definition has_key {A} (p : Property A) : bool :=
  match p with
  | missing => false
  | undefined | given _ => true
  end.

(** [UseQueryStateOptions]: every property is optional.  [schema] stands for
    the Zod schema through its [safeParse]: [Some data] on success, [None]
    on failure. *)
Record UseQueryStateOptions : Type := {
  defaultValue : Property string;
  schema : Property (string -> option string);
  onParseError : Property OnParseError
}.

(** The options object [{}]. *)
Definition emptyOptions : UseQueryStateOptions :=
  {| defaultValue := missing; schema := missing; onParseError := missing |}.

Definition present {A} (o : option A) : bool :=
  match o with Some _ => true | None => false end.

(** [Object.keys(options).length] *)
Definition Object_keys_length (o : UseQueryStateOptions) : nat :=
  (if has_key (defaultValue o) then 1 else 0)
  + (if has_key (schema o) then 1 else 0)
  + (if has_key (onParseError o) then 1 else 0).

(** [options?.[key]] on a [Record<Key, UseQueryStateOptions>]. *)
Fixpoint lookup {A} (r : list (string * A)) (key : string) : option A :=
  match r with
  | [] => None
  | (k, a) :: r' => if String.eqb k key then Some a else lookup r' key
  end.

Definition optionsFor (options : option (list (string * UseQueryStateOptions)))
    (key : string) : option UseQueryStateOptions :=
  match options with
  | Some r => lookup r key
  | None => None
  end.

(** ** [shouldUpdateQueryState] *)

Definition shouldUpdateQueryState
    (key value : string) (options : option UseQueryStateOptions)
    (paramExists : bool) (previousSearchParams : option URLSearchParams.t)
    (isInitialMount : bool) : bool :=
  let hasOptions :=
    match options with
    | Some o => negb (Nat.eqb (Object_keys_length o) 0)
    | None => false
    end in
  if negb hasOptions && paramExists && truthy value then false
  else
    let options_defaultValue :=
      match options with Some o => read (defaultValue o) | None => None end in
    let hasDefaultValue := hasOptions && truthy_opt options_defaultValue in
    let hasSchema :=
      hasOptions
      && match options with Some o => present (read (schema o)) | None => false end in
    (isInitialMount && hasDefaultValue
       && negb (opt_eqb (Some value) options_defaultValue))
    || (isInitialMount && negb hasDefaultValue && hasSchema)
    || (paramExists && negb (truthy value))
    || (negb paramExists && hasDefaultValue)
    || (hasSchema
        && negb (opt_eqb (Some value)
                   (match previousSearchParams with
                    | Some p => URLSearchParams.get p key
                    | None => None
                    end))).

(** ** [updateQueryState] *)

(** The object is mutated in place in the source; here the mutated object
    is the result.  [shouldFallback] is the value of
    [onParseError === "fallback" && defaultValue] when it is truthy (it is
    then the default itself), and [None] when it is falsy. *)
Definition updateQueryState (updates : string * string)
    (searchParams : URLSearchParams.t) (options : option UseQueryStateOptions)
    : URLSearchParams.t :=
  let (key, value) := updates in
  match options with
  | None =>
      if truthy value then URLSearchParams.set searchParams key value
      else URLSearchParams.delete searchParams key
  | Some o =>
      let defaultValue := read (defaultValue o) in
      let onParseError := nullish (read (onParseError o)) fallback in
      let shouldFallback :=
        if OnParseError_eqb onParseError fallback then
          match defaultValue with
          | Some d => if truthy d then Some d else None
          | None => None
          end
        else None in
      let shouldRemove :=
        OnParseError_eqb onParseError remove || negb (truthy_opt defaultValue) in
      let afterSchema :=
        match shouldFallback with
        | Some d =>
            if negb (truthy value) then URLSearchParams.set searchParams key d
            else URLSearchParams.set searchParams key value
        | None =>
            if negb (truthy value) && shouldRemove
            then URLSearchParams.delete searchParams key
            else if truthy value then URLSearchParams.set searchParams key value
            else searchParams
        end in
      match read (schema o) with
      | Some safeParse =>
          match safeParse value with
          | Some data => URLSearchParams.set searchParams key data
          | None =>
              match shouldFallback with
              | Some d => URLSearchParams.set searchParams key d
              | None =>
                  if shouldRemove then URLSearchParams.delete searchParams key
                  else afterSchema
              end
          end
      | None => afterSchema
      end
  end.

(** ** [createQueryState] *)

(** [NonEmptyArray<T>] is [[T, ...Array<T>]]. *)
Definition NonEmptyArray (A : Type) : Type := (A * list A)%type.

Definition toArray {A} (a : NonEmptyArray A) : list A := fst a :: snd a.

(** The two shapes of the argument; [Array.isArray(updates[0])] tells them
    apart in the source. *)
Inductive CreateQueryStateArgs : Type :=
| OneUpdate (updates : string * string) (searchParams : string)
    (options : option UseQueryStateOptions)
| ManyUpdates (updates : NonEmptyArray (string * string)) (searchParams : string)
    (options : option (list (string * UseQueryStateOptions))).

(** The loop over [updates], each one applied to the same object. *)
Fixpoint applyUpdates (updates : list (string * string))
    (urlSearchParams : URLSearchParams.t)
    (options : option (list (string * UseQueryStateOptions))) : URLSearchParams.t :=
  match updates with
  | [] => urlSearchParams
  | u :: rest =>
      applyUpdates rest (updateQueryState u urlSearchParams (optionsFor options (fst u)))
        options
  end.

Definition createQueryState (args : CreateQueryStateArgs) : URLSearchParams.t :=
  match args with
  | ManyUpdates updates searchParams options =>
      applyUpdates (toArray updates) (URLSearchParams.of_string searchParams) options
  | OneUpdate updates searchParams options =>
      updateQueryState updates (URLSearchParams.of_string searchParams) options
  end.

(** ** The state a hook instance keeps between renders *)

(** The refs of one hook instance, and the calls it has made to
    [router.replace], oldest first.  [_stableKey], [_stableKeys] and
    [_stableOptions] are written once, when the instance is created: they
    are the parameters of the definitions below.  The single-key hook has no
    [_paramUpdates] ref and leaves the field alone. *)
Record Refs : Type := {
  _stableSearchParams : option URLSearchParams.t;
  _paramUpdates : list (string * string);
  router : list string
}.

(** A hook instance before its first render: nothing remembered. *)
Definition mounted : Refs :=
  {| _stableSearchParams := None; _paramUpdates := []; router := [] |}.

(** State passing over [Refs]. *)
Definition M (A : Type) : Type := Refs -> A * Refs.

Definition ret {A} (a : A) : M A := fun s => (a, s).

Definition bind {A B} (m : M A) (k : A -> M B) : M B :=
  fun s => let (a, s') := m s in k a s'.

Notation "x <- m ;; k" := (bind m (fun x => k))
  (at level 61, m at next level, right associativity).
Notation "m ;; k" := (bind m (fun _ => k))
  (at level 61, right associativity).

Definition exec {A} (m : M A) (s : Refs) : Refs := snd (m s).

Definition read_stableSearchParams : M (option URLSearchParams.t) :=
  fun s => (_stableSearchParams s, s).

Definition write_stableSearchParams (p : option URLSearchParams.t) : M unit :=
  fun s => (tt, {| _stableSearchParams := p;
                   _paramUpdates := _paramUpdates s;
                   router := router s |}).

Definition read_paramUpdates : M (list (string * string)) :=
  fun s => (_paramUpdates s, s).

Definition write_paramUpdates (u : list (string * string)) : M unit :=
  fun s => (tt, {| _stableSearchParams := _stableSearchParams s;
                   _paramUpdates := u;
                   router := router s |}).

(** [router.replace(href)] *)
Definition router_replace (href : string) : M unit :=
  fun s => (tt, {| _stableSearchParams := _stableSearchParams s;
                   _paramUpdates := _paramUpdates s;
                   router := (router s ++ [href])%list |}).

(** [for (let i = 0; i < keys.length; i++) body(keys[i])] *)
Fixpoint for_each {A} (l : list A) (body : A -> M unit) : M unit :=
  match l with
  | [] => ret tt
  | a :: l' => body a ;; for_each l' body
  end.

(** The template literal of the address that is navigated to. *)
Definition href (pathname newSearchParams : string) : string :=
  pathname ++ "?" ++ newSearchParams.

(** ** [useQueryState] *)

Section UseQueryState.

Variable key : string.
Variable options : option UseQueryStateOptions.
Variable pathname : string.

Definition setQueryState (value : string) : M unit :=
  stable <- read_stableSearchParams ;;
  let existingSearchParams := option_map URLSearchParams.toString stable in
  let urlSearchParams :=
    createQueryState
      (OneUpdate (key, value) (nullish existingSearchParams "") options) in
  let newSearchParams := URLSearchParams.toString urlSearchParams in
  if opt_eqb (Some newSearchParams) existingSearchParams then ret tt
  else
    write_stableSearchParams (Some urlSearchParams) ;;
    router_replace (href pathname newSearchParams).

(** The effect, run with the snapshot [searchParams] of the render. *)
Definition useQueryState_effect (searchParams : URLSearchParams.t) : M unit :=
  stable <- read_stableSearchParams ;;
  let isInitialMount := negb (present stable) in
  (if isInitialMount then write_stableSearchParams (Some searchParams) else ret tt) ;;
  let value := nullish (URLSearchParams.get searchParams key) "" in
  previousSearchParams <- read_stableSearchParams ;;
  if shouldUpdateQueryState key value options
       (URLSearchParams.has searchParams key) previousSearchParams isInitialMount
  then
    write_stableSearchParams (Some searchParams) ;;
    setQueryState value
  else ret tt.

(** The value the hook returns for the render. *)
Definition queryState (searchParams : URLSearchParams.t) : option string :=
  URLSearchParams.get searchParams key.

End UseQueryState.

(** ** [useQueriesState] *)

Section UseQueriesState.

Variable keys : list string.
Variable options : option (list (string * UseQueryStateOptions)).
Variable pathname : string.

Definition _updateSearchParams (updates : NonEmptyArray (string * string)) : M unit :=
  stable <- read_stableSearchParams ;;
  let existingSearchParams := option_map URLSearchParams.toString stable in
  let urlSearchParams :=
    createQueryState
      (ManyUpdates updates (nullish existingSearchParams "") options) in
  let newSearchParams := URLSearchParams.toString urlSearchParams in
  if opt_eqb (Some newSearchParams) existingSearchParams then ret tt
  else
    write_stableSearchParams (Some urlSearchParams) ;;
    router_replace (href pathname newSearchParams).

(** The body of the effect's loop, for one key. *)
Definition effect_body (searchParams : URLSearchParams.t) (isInitialMount : bool)
    (key : string) : M unit :=
  let value := nullish (URLSearchParams.get searchParams key) "" in
  previousSearchParams <- read_stableSearchParams ;;
  (if shouldUpdateQueryState key value (optionsFor options key)
        (URLSearchParams.has searchParams key) previousSearchParams isInitialMount
   then
     pending <- read_paramUpdates ;;
     write_paramUpdates (pending ++ [(key, value)])%list
   else ret tt) ;;
  pending <- read_paramUpdates ;;
  match pending with
  | u :: us =>
      write_stableSearchParams (Some searchParams) ;;
      _updateSearchParams (u, us) ;;
      write_paramUpdates []
  | [] => ret tt
  end.

Definition useQueriesState_effect (searchParams : URLSearchParams.t) : M unit :=
  stable <- read_stableSearchParams ;;
  let isInitialMount := negb (present stable) in
  (if isInitialMount then write_stableSearchParams (Some searchParams) else ret tt) ;;
  for_each keys (effect_body searchParams isInitialMount).

Definition setQueryStrings (key value : string) : M unit :=
  _updateSearchParams ((key, value), []).

End UseQueriesState.

(** ** What a hook instance goes through *)

(** The effect runs with each snapshot the environment shows the hook; a
    caller invokes the setter. *)
Inductive Event : Type :=
| Observe (searchParams : URLSearchParams.t)
| SetValue (key value : string).

Definition step_single (key : string) (options : option UseQueryStateOptions)
    (pathname : string) (e : Event) : M unit :=
  match e with
  | Observe searchParams => useQueryState_effect key options pathname searchParams
  | SetValue _ value => setQueryState key options pathname value
  end.

Definition step_batch (keys : list string)
    (options : option (list (string * UseQueryStateOptions)))
    (pathname : string) (e : Event) : M unit :=
  match e with
  | Observe searchParams => useQueriesState_effect keys options pathname searchParams
  | SetValue key value => setQueryStrings options pathname key value
  end.

(** ** [safeTry] (src/lib/utils.ts) *)

Module Exn.

(** A computation returns a value or throws. *)
Inductive result (E A : Type) : Type :=
| Return (a : A)
| Throw (e : E).
Arguments Return {E A} a.
Arguments Throw {E A} e.

(** [try { body } catch (e) { handler(e) }] *)
Definition try_catch {E A} (body : result E A) (handler : E -> result E A)
    : result E A :=
  match body with
  | Return a => Return a
  | Throw e => handler e
  end.

(** Evaluating the argument expression, then the call. *)
Definition call {E A B} (argument : result E A) (f : A -> result E B)
    : result E B :=
  match argument with
  | Return a => f a
  | Throw e => Throw e
  end.

End Exn.

(** The result is the tuple [[T, null] | [null, E]]; [operation] is a value:
    the argument has been evaluated when the body starts. *)
Definition safeTry {T E : Type} (operation : T)
    : Exn.result E (option T * option E) :=
  Exn.try_catch
    (let result := operation in Exn.Return (Some result, None))
    (fun e => Exn.Return (None, Some e)).

(** ** [UniqueArray] (src/lib/types.ts) *)

(** The type-level computation on a tuple of string literal types.  A union
    of literal types is the list of its members, [never] the empty list. *)
Module Types.






End Types.

(** ** Auxiliary notions used in the statements and proofs *)

(** Whether a byte occurs in a string. *)
Fixpoint occurs (c : ascii) (s : string) : bool :=
  match s with
  | EmptyString => false
  | String a r => Ascii.eqb a c || occurs c r
  end.

(** The names of the tuples, in order. *)
Definition names (p : URLSearchParams.t) : list string := map fst p.

(** The tuples whose name is none of [ks], in order. *)
Definition others (ks : list string) (p : URLSearchParams.t) : URLSearchParams.t :=
  filter (fun e => negb (existsb (String.eqb (fst e)) ks)) p.

(** The default as the code uses it: a [defaultValue] that is supplied and
    is not the empty string. *)
Definition usableDefault (o : UseQueryStateOptions) : option string :=
  match read (defaultValue o) with
  | Some d => if truthy d then Some d else None
  | None => None
  end.

(** The default as supplied, whatever string it is. *)
Definition suppliedDefault (o : UseQueryStateOptions) : option string :=
  read (defaultValue o).

(** Each query string of the list differs from the one before it, the
    first one from [previous] (when there is one). *)
Fixpoint chain (previous : option string) (qs : list string) : Prop :=
  match qs with
  | [] => True
  | q :: qs' => Some q <> previous /\ chain (Some q) qs'
  end.

(** The hook in use: the events it goes through, in order. *)
Fixpoint run (step : Event -> M unit) (events : list Event) : M unit :=
  match events with
  | [] => ret tt
  | e :: events' => step e ;; run step events'
  end.

(** The schema [z.enum(values)] through its [safeParse]: a value of the
    list parses to itself, any other value fails. *)
Definition z_enum (values : list string) (raw : string) : option string :=
  if existsb (String.eqb raw) values then Some raw else None.

(** ** The specification's wording of the decisions *)

Module Spec.

(** The outcome of the resolution: "set" with a value, or "delete". *)
Inductive Action : Type :=
| set_to (value : string)
| delete_key.

Definition apply (key : string) (snapshot : URLSearchParams.t) (a : Action)
    : URLSearchParams.t :=
  match a with
  | set_to value => URLSearchParams.set snapshot key value
  | delete_key => URLSearchParams.delete snapshot key
  end.

Section Wording.

(** What "a default exists" means: the default an options object has. *)
Variable default_of : UseQueryStateOptions -> option string.

(** The resolution's decision procedure, rule by rule: no options; a
    validator; no validator. *)
Definition resolve (rawValue : string) (options : option UseQueryStateOptions)
    : Action :=
  match options with
  | None => if truthy rawValue then set_to rawValue else delete_key
  | Some o =>
      let fallback_default :=
        match nullish (read (onParseError o)) fallback with
        | fallback => default_of o
        | remove => None
        end in
      match read (schema o) with
      | Some validator =>
          match validator rawValue with
          | Some output => set_to output
          | None =>
              match fallback_default with
              | Some d => set_to d
              | None => delete_key
              end
          end
      | None =>
          if truthy rawValue then set_to rawValue
          else match fallback_default with
               | Some d => set_to d
               | None => delete_key
               end
      end
  end.

(** "No options configured": none supplied, or an object in which no
    option has a value. *)
Definition configured (options : option UseQueryStateOptions) : bool :=
  match options with
  | Some o =>
      present (read (defaultValue o)) || present (read (schema o))
      || present (read (onParseError o))
  | None => false
  end.

(** The reconciliation predicate: the short circuit, then the
    disjunction of the five conditions. *)
Definition needsCorrection (key rawValue : string) (paramExists : bool)
    (isInitialObservation : bool) (options : option UseQueryStateOptions)
    (previousSnapshot : option URLSearchParams.t) : bool :=
  if negb (configured options) && paramExists && truthy rawValue then false
  else
    let default := match options with Some o => default_of o | None => None end in
    let validator :=
      match options with Some o => present (read (schema o)) | None => false end in
    let previous :=
      match previousSnapshot with
      | Some s => URLSearchParams.get s key
      | None => None
      end in
    (isInitialObservation && present default && negb (opt_eqb (Some rawValue) default))
    || (isInitialObservation && negb (present default) && validator)
    || (paramExists && negb (truthy rawValue))
    || (negb paramExists && present default)
    || (validator && negb (opt_eqb (Some rawValue) previous)).

End Wording.

(** The batch synchronizer's pass as section 4.5 words it: every key is
    evaluated against the snapshot remembered before the pass, the keys
    that need correction are gathered in one list, and at most one combined
    commit is issued for the whole pass. *)
Definition batch_pass (keys : list string)
    (options : option (list (string * UseQueryStateOptions)))
    (pathname : string) (searchParams : URLSearchParams.t) : M unit :=
  stable <- read_stableSearchParams ;;
  let isInitialMount := negb (present stable) in
  (if isInitialMount then write_stableSearchParams (Some searchParams) else ret tt) ;;
  previousSearchParams <- read_stableSearchParams ;;
  let needs key :=
    shouldUpdateQueryState key (nullish (URLSearchParams.get searchParams key) "")
      (optionsFor options key) (URLSearchParams.has searchParams key)
      previousSearchParams isInitialMount in
  let updates :=
    map (fun key => (key, nullish (URLSearchParams.get searchParams key) ""))
      (filter needs keys) in
  match updates with
  | u :: us =>
      write_stableSearchParams (Some searchParams) ;;
      _updateSearchParams options pathname (u, us)
  | [] => ret tt
  end.

End Spec.

From Stdlib Require Import ZArith Lia.

(** ** Further notions of the hooks *)

(** A plain object made by [{}] whose properties hold strings or null: its
    own properties in the order [Object.keys] lists them (array indices
    first, in ascending order, then the other names in the order of their
    creation), and whether its prototype is still [Object.prototype]. *)
Record PlainObject : Type := {
  properties : list (string * option string);
  inherits : bool
}.

Definition emptyObject : PlainObject := {| properties := []; inherits := true |}.

(** The value of a string of decimal digits. *)
Fixpoint digits (s : string) (n : N) : option N :=
  match s with
  | EmptyString => Some n
  | String c r =>
      let d := nat_of_ascii c in
      if ((48 <=? d) && (d <=? 57))%nat
      then digits r (10 * n + N.of_nat (d - 48))%N
      else None
  end.

(** An array index: a canonical numeric string (no leading zero, unless it
    is ["0"]) whose value is at most 2^32 - 2. *)
Definition array_index (s : string) : option N :=
  match s with
  | EmptyString => None
  | String c r =>
      if Ascii.eqb c "0" && truthy r then None
      else match digits s 0%N with
           | Some n => if (n <=? 4294967294)%N then Some n else None
           | None => None
           end
  end.

(** A new array index comes before the first own property that is a
    larger index or no index. *)
Fixpoint insert_index (n : N) (key : string) (value : option string)
    (own : list (string * option string)) : list (string * option string) :=
  match own with
  | [] => [(key, value)]
  | (k, x) :: r =>
      match array_index k with
      | Some m =>
          if (m <? n)%N then (k, x) :: insert_index n key value r
          else (key, value) :: (k, x) :: r
      | None => (key, value) :: (k, x) :: r
      end
  end.

(** Creating an own property. *)
Definition create (own : list (string * option string)) (key : string)
    (value : option string) : list (string * option string) :=
  match array_index key with
  | Some n => insert_index n key value own
  | None => (own ++ [(key, value)])%list
  end.

(** Writing an own property that is there. *)
Fixpoint overwrite (own : list (string * option string)) (key : string)
    (value : option string) : list (string * option string) :=
  match own with
  | [] => []
  | (k, x) :: r =>
      if String.eqb k key then (k, value) :: r else (k, x) :: overwrite r key value
  end.

(** [object[key] = value]: an own property is written; otherwise, for the
    key ["__proto__"] of an object that still inherits from
    [Object.prototype], the inherited setter runs, which ignores a string and
    on null removes the prototype; otherwise an own property is created. *)
Definition assign (object : PlainObject) (key : string) (value : option string)
    : PlainObject :=
  match lookup (properties object) key with
  | Some _ =>
      {| properties := overwrite (properties object) key value;
         inherits := inherits object |}
  | None =>
      if String.eqb key "__proto__" && inherits object then
        match value with
        | Some _ => object
        | None => {| properties := properties object; inherits := false |}
        end
      else
        {| properties := create (properties object) key value;
           inherits := inherits object |}
  end.

(** The object [queryStrings] that [useQueriesState] returns for the
    render: for each tracked key, in turn,
    [object[key] = searchParams.get(key)]. *)
Definition queryStrings (keys : list string) (searchParams : URLSearchParams.t)
    : PlainObject :=
  fold_left
    (fun object key => assign object key (URLSearchParams.get searchParams key))
    keys emptyObject.

(** How many tuples of a snapshot carry the name. *)
Definition occurrences (key : string) (p : URLSearchParams.t) : nat :=
  length (filter (fun e => String.eqb (fst e) key) p).

(** Whether the options carry a schema. *)
Definition has_schema (options : option UseQueryStateOptions) : bool :=
  match options with
  | Some o => present (read (schema o))
  | None => false
  end.

(** A schema, when there is one, that rejects the empty string and never
    gives it as its output. *)
Definition schema_guard (options : option UseQueryStateOptions) : Prop :=
  forall o validator,
    options = Some o -> read (schema o) = Some validator ->
    validator "" = None /\ forall raw, validator raw <> Some "".

(** A schema, when there is one, that rejects the empty string. *)
Definition rejects_empty (options : option UseQueryStateOptions) : Prop :=
  forall o validator,
    options = Some o -> read (schema o) = Some validator -> validator "" = None.

(** The elements whose flag is set, in order. *)
Fixpoint pick {A} (flags : list bool) (l : list A) : list A :=
  match flags, l with
  | true :: flags', a :: l' => a :: pick flags' l'
  | false :: flags', _ :: l' => pick flags' l'
  | _, _ => []
  end.

(** Options without a schema and without a default that is used. *)
Definition plain (options : option UseQueryStateOptions) : bool :=
  negb (has_schema options)
  && match options with
     | Some o => negb (present (usableDefault o))
     | None => true
     end.

(** ** [safeTryPromise] (src/lib/utils.ts) *)

(** A promise is taken when it has settled: [Exn.Return] for a fulfilled
    one, [Exn.Throw] for a rejected one, and so is the promise the function
    returns.  [await] gives the value or throws the reason. *)
Definition safeTryPromise {T E : Type} (promise : Exn.result E T)
    : Exn.result E (option T * option E) :=
  Exn.try_catch
    (Exn.call promise (fun result => Exn.Return (Some result, None)))
    (fun e => Exn.Return (None, Some e)).

(** ** [cx] (src/lib/utils.ts) *)

(** [String.prototype.trimEnd] on the UTF-8 bytes of a string: the white
    space and line terminator code points are the six ASCII ones, U+00A0,
    U+1680, U+2000 to U+200A, U+2028, U+2029, U+202F, U+205F, U+3000 and
    U+FEFF. *)
Module TrimEnd.

Definition ascii_space (c : ascii) : bool :=
  let n := nat_of_ascii c in
  (((9 <=? n) && (n <=? 13)) || (n =? 32))%nat.

(** The last two bytes of the string, last byte first: U+00A0. *)
Definition space2 (last before : ascii) : bool :=
  ((nat_of_ascii before =? 194) && (nat_of_ascii last =? 160))%nat.

(** The last three bytes of the string, last byte first. *)
Definition space3 (last middle lead : ascii) : bool :=
  let c := nat_of_ascii last in
  let b := nat_of_ascii middle in
  let a := nat_of_ascii lead in
  (((a =? 225) && (b =? 154) && (c =? 128))
   || ((a =? 226) && (b =? 128)
       && (((128 <=? c) && (c <=? 138)) || (c =? 168) || (c =? 169) || (c =? 175)))
   || ((a =? 226) && (b =? 129) && (c =? 159))
   || ((a =? 227) && (b =? 128) && (c =? 128))
   || ((a =? 239) && (b =? 187) && (c =? 191)))%nat.

(** Dropping the white space at the head of the reversed bytes. *)
Fixpoint strip (reversed : list ascii) : list ascii :=
  match reversed with
  | [] => []
  | c :: r1 =>
      if ascii_space c then strip r1
      else
        match r1 with
        | [] => reversed
        | c2 :: r2 =>
            if space2 c c2 then strip r2
            else
              match r2 with
              | [] => reversed
              | c3 :: r3 => if space3 c c2 c3 then strip r3 else reversed
              end
        end
  end.

Definition trimEnd (s : string) : string :=
  string_of_list_ascii (rev (strip (rev (list_ascii_of_string s)))).

End TrimEnd.

(** [ClassValue] (src/lib/types.ts).  A record is given by its entries in
    the order [Object.entries] lists them. *)
Inductive ClassValue : Type :=
| class_string (s : string)
| class_record (entries : list (string * bool))
| class_boolean (b : bool)
| class_null
| class_undefined.

(** The body of the loop of [cx], for one input. *)
Definition cx_step (result : string) (input : ClassValue) : string :=
  match input with
  | class_null | class_undefined | class_boolean _ => result
  | class_string s => if truthy s then result ++ s ++ " " else result
  | class_record entries =>
      fold_left
        (fun (result : string) (e : string * bool) =>
           if snd e then result ++ fst e ++ " " else result)
        entries result
  end.

Definition cx (inputs : list ClassValue) : string :=
  TrimEnd.trimEnd (fold_left cx_step inputs "").

(** The class names an input contributes, in order. *)
Definition selected (input : ClassValue) : list string :=
  match input with
  | class_string s => if truthy s then [s] else []
  | class_record entries => map fst (filter snd entries)
  | class_boolean _ | class_null | class_undefined => []
  end.

(** The words with one space after each. *)
Fixpoint spaced (words : list string) : string :=
  match words with
  | [] => ""
  | w :: words' => w ++ " " ++ spaced words'
  end.

(** The words with one space between them. *)
Fixpoint joined (words : list string) : string :=
  match words with
  | [] => ""
  | [w] => w
  | w :: words' => w ++ " " ++ joined words'
  end.

(** The last byte of a string, when it has one. *)
Fixpoint last_byte (s : string) : option ascii :=
  match s with
  | EmptyString => None
  | String c EmptyString => Some c
  | String _ r => last_byte r
  end.

(** A string that ends in an ASCII byte other than white space. *)
Definition ends_plain (s : string) : bool :=
  match last_byte s with
  | Some c => (nat_of_ascii c <? 128)%nat && negb (TrimEnd.ascii_space c)
  | None => false
  end.

(** ** [createVariants] (src/lib/create-variants.ts) *)

Module CreateVariants.

(** [TConfig]; the two records are given by their entries. *)
Record TConfig : Type := {
  base : ClassValue;
  variant : list (string * ClassValue);
  size : list (string * ClassValue)
}.

(** [TSelectionProps]: both properties are optional. *)
Record TSelectionProps : Type := {
  props_variant : option string;
  props_size : option string
}.

(** [record[name]]: [undefined] without such a property; only the entries
    of the record itself are looked at, not what an object inherits. *)
Definition index (record : list (string * ClassValue)) (name : string) : ClassValue :=
  match lookup record name with
  | Some c => c
  | None => class_undefined
  end.

(** [props?.variant ? props.variant : "default"], and the same for size. *)
Definition choice (selection : option string) : string :=
  match selection with
  | Some name => if truthy name then name else "default"
  | None => "default"
  end.

Definition createVariants (config : TConfig) (props : option TSelectionProps) : string :=
  cx [base config;
      index (variant config)
        (choice (match props with Some p => props_variant p | None => None end));
      index (size config)
        (choice (match props with Some p => props_size p | None => None end))].

End CreateVariants.

(** ** The page that uses the hook
    (src/app/dashboard/create-script/[scriptId]/page.tsx) *)

Module ScriptConfigurationPage.

Record ConfigurationTab : Type := {
  key : string;
  displayText : string
}.

Definition configTabs : list ConfigurationTab :=
  [ {| key := "goal"; displayText := "Goal" |};
    {| key := "persona"; displayText := "Persona" |};
    {| key := "rules"; displayText := "Rules" |};
    {| key := "resources"; displayText := "Resources" |} ].

(** [Array.prototype.findIndex]: the index of the first element that
    satisfies the predicate, or -1. *)
Fixpoint findIndex_from {A} (predicate : A -> bool) (l : list A) (i : Z) : Z :=
  match l with
  | [] => (-1)%Z
  | a :: l' => if predicate a then i else findIndex_from predicate l' (i + 1)%Z
  end.

Definition findIndex {A} (predicate : A -> bool) (l : list A) : Z :=
  findIndex_from predicate l 0%Z.

(** [array[i]]: [undefined] outside the array. *)
Definition element {A} (l : list A) (i : Z) : option A :=
  if (i <? 0)%Z then None else nth_error l (Z.to_nat i).

(** Reading [.key] of [undefined]. *)
Inductive TypeError : Type := cannot_read_properties_of_undefined.

(** The schema [z.literal(values)]: one of the values, unchanged. *)
Definition z_literal (values : list string) (raw : string) : option string :=
  if existsb (String.eqb raw) values then Some raw else None.

(** The options the page gives [useQueryState("step", ...)]. *)
Definition options : option UseQueryStateOptions :=
  Some {| defaultValue :=
            match configTabs with
            | tab :: _ => given (key tab)
            | [] => undefined
            end;
          schema := given (z_literal (map key configTabs));
          onParseError := missing |}.

(** The click handler of Back, for the [step] of the render: what it passes
    to [setStep], [None] when it returns without calling it. *)
Definition onBack (step : option string) : Exn.result TypeError (option string) :=
  let currentIndex := findIndex (fun tab => opt_eqb (Some (key tab)) step) configTabs in
  if (currentIndex <? -1)%Z || (currentIndex =? 0)%Z then Exn.Return None
  else
    match element configTabs (currentIndex - 1)%Z with
    | Some tab => Exn.Return (Some (key tab))
    | None => Exn.Throw cannot_read_properties_of_undefined
    end.

(** The click handler of Next. *)
Definition onNext (step : option string) : Exn.result TypeError (option string) :=
  let currentIndex := findIndex (fun tab => opt_eqb (Some (key tab)) step) configTabs in
  if (currentIndex <? -1)%Z
     || (currentIndex =? Z.of_nat (length configTabs) - 1)%Z
  then Exn.Return None
  else
    match element configTabs (currentIndex + 1)%Z with
    | Some tab => Exn.Return (Some (key tab))
    | None => Exn.Throw cannot_read_properties_of_undefined
    end.

End ScriptConfigurationPage.

(** ** [useQueryString], the hook without a remembered snapshot
    (src/unnamed/part_002) *)

Module UseQueryString.

Definition getSearchParamsWithUpdatedValue (searchParams : URLSearchParams.t)
    (key value : string) : string :=
  URLSearchParams.toString
    (URLSearchParams.set
       (URLSearchParams.of_string (URLSearchParams.toString searchParams)) key value).

Definition getSearchParamsWithRemovedValue (searchParams : URLSearchParams.t)
    (key : string) : string :=
  URLSearchParams.toString
    (URLSearchParams.delete
       (URLSearchParams.of_string (URLSearchParams.toString searchParams)) key).

Section Render.

(** The arguments of the hook and the snapshot of the render. *)
Variable hook_key : string.
Variable options : option UseQueryStateOptions.
Variable pathname : string.
Variable searchParams : URLSearchParams.t.

(** [const { defaultValue = null, schema, onParseError = "fallback" } =
    options ?? {}] *)
Definition render_defaultValue : option string :=
  match options with Some o => read (defaultValue o) | None => None end.

Definition render_schema : option (string -> option string) :=
  match options with Some o => read (schema o) | None => None end.

Definition render_onParseError : OnParseError :=
  match options with
  | Some o => nullish (read (onParseError o)) fallback
  | None => fallback
  end.

Definition createQueryString (key value : string) : string :=
  if negb (truthy value) then getSearchParamsWithRemovedValue searchParams key
  else
    let plain := getSearchParamsWithUpdatedValue searchParams key value in
    match render_schema with
    | Some safeParse =>
        match safeParse value with
        | Some data => getSearchParamsWithUpdatedValue searchParams key data
        | None =>
            if OnParseError_eqb render_onParseError fallback then
              match render_defaultValue with
              | Some d =>
                  if truthy d then getSearchParamsWithUpdatedValue searchParams key d
                  else getSearchParamsWithRemovedValue searchParams key
              | None => getSearchParamsWithRemovedValue searchParams key
              end
            else if OnParseError_eqb render_onParseError remove then
              getSearchParamsWithRemovedValue searchParams key
            else plain
        end
    | None => plain
    end.

(** The address [setQueryString(value)] passes to [router.replace]; the
    call is made every time. *)
Definition setQueryString (value : string) : string :=
  href pathname (createQueryString hook_key value).

(** The value the effect passes to [setQueryString], when it calls it. *)
Definition effect_value : option string :=
  let queryString := URLSearchParams.get searchParams hook_key in
  let hasQueryString := URLSearchParams.has searchParams hook_key in
  if (hasQueryString && negb (truthy_opt queryString))
     || (negb hasQueryString && truthy_opt render_defaultValue)
  then Some (nullish render_defaultValue "")
  else None.

(** The navigation the effect makes, if any. *)
Definition effect : option string := option_map setQueryString effect_value.

End Render.

End UseQueryString.


(** * Properties *)

(** ** Truthiness and equality tests *)

Lemma opt_eqb_spec (a b : option string) : reflect (a = b) (opt_eqb a b).
Proof.
  destruct a as [x|], b as [y|]; simpl; try (constructor; congruence).
  destruct (String.eqb_spec x y); constructor; congruence.
Qed.

Lemma truthy_false (s : string) : truthy s = false <-> s = "".
Proof. destruct s; simpl; split; congruence. Qed.

Lemma truthy_true (s : string) : truthy s = true <-> s <> "".
Proof. destruct s; simpl; split; congruence. Qed.

(** ** The serialiser and the parser are inverse *)

Module UrlEncodedFacts.
Import UrlEncoded.

Example serialize_two :
  serialize [("page", "1"); ("q", "a b&c")] = "page=1&q=a+b%26c".
Proof. reflexivity. Qed.

Example parse_two :
  parse "page=1&&q=a+b%26c&x" = [("page", "1"); ("q", "a b&c"); ("x", "")].
Proof. reflexivity. Qed.

Lemma append_assoc (a b c : string) : (a ++ b) ++ c = a ++ (b ++ c).
Proof. induction a as [|x a IH]; simpl; [reflexivity | now rewrite IH]. Qed.

Lemma occurs_append (c : ascii) (a b : string) :
  occurs c (a ++ b) = occurs c a || occurs c b.
Proof.
  induction a as [|x a IH]; simpl; [reflexivity|].
  now rewrite IH, orb_assoc.
Qed.

Ltac each_byte c :=
  destruct c as [[] [] [] [] [] [] [] []]; reflexivity.

Lemma decode_encode_byte (c : ascii) (r : string) :
  decode (encode_byte c ++ r) = String c (decode r).
Proof. each_byte c. Qed.

Lemma encode_byte_amp (c : ascii) : occurs "&" (encode_byte c) = false.
Proof. each_byte c. Qed.

Lemma encode_byte_eq (c : ascii) : occurs "=" (encode_byte c) = false.
Proof. each_byte c. Qed.

Lemma encode_byte_question (c : ascii) : occurs "?" (encode_byte c) = false.
Proof. each_byte c. Qed.

Lemma decode_encode (s : string) : decode (encode s) = s.
Proof.
  induction s as [|c s IH]; simpl; [reflexivity|].
  now rewrite decode_encode_byte, IH.
Qed.

Lemma encode_free (sep : ascii) :
  (forall c, occurs sep (encode_byte c) = false) ->
  forall s, occurs sep (encode s) = false.
Proof.
  intros H s. induction s as [|c s IH]; simpl; [reflexivity|].
  now rewrite occurs_append, H, IH.
Qed.

Lemma serialize_pair_free (sep : ascii) (p : string * string) :
  (forall c, occurs sep (encode_byte c) = false) ->
  Ascii.eqb "=" sep = false ->
  occurs sep (serialize_pair p) = false.
Proof.
  intros H Hsep. unfold serialize_pair.
  rewrite occurs_append.
  change ("=" ++ encode (snd p)) with (String "=" (encode (snd p))).
  cbn [occurs].
  now rewrite !encode_free, Hsep by assumption.
Qed.

Lemma break_eq_append (a b : string) :
  occurs "=" a = false -> break_eq (a ++ String "=" b) = (a, b).
Proof.
  induction a as [|x a IH]; simpl; intros H; [reflexivity|].
  apply orb_false_elim in H. destruct H as [Hx Ha].
  rewrite Hx, (IH Ha). reflexivity.
Qed.

Lemma split_append (sep : ascii) (a b : string) :
  occurs sep a = false -> split sep (a ++ String sep b) = a :: split sep b.
Proof.
  induction a as [|x a IH]; simpl; intros H.
  - now rewrite Ascii.eqb_refl.
  - apply orb_false_elim in H. destruct H as [Hx Ha].
    rewrite Hx, (IH Ha). reflexivity.
Qed.

Lemma split_whole (sep : ascii) (a : string) :
  occurs sep a = false -> split sep a = [a].
Proof.
  induction a as [|x a IH]; simpl; intros H; [reflexivity|].
  apply orb_false_elim in H. destruct H as [Hx Ha].
  rewrite Hx, (IH Ha). reflexivity.
Qed.

Lemma parse_pair_serialize_pair (p : string * string) :
  parse_pair (serialize_pair p) = [p].
Proof.
  destruct p as [k v]. unfold parse_pair.
  assert (E : break_eq (serialize_pair (k, v)) = (encode k, encode v)).
  { unfold serialize_pair. simpl fst. simpl snd.
    apply break_eq_append, encode_free, encode_byte_eq. }
  rewrite E, !decode_encode.
  unfold serialize_pair. simpl fst.
  destruct (encode k); reflexivity.
Qed.

(** Round trip: parsing what the serialiser wrote gives the list back. *)
Lemma parse_serialize (l : list (string * string)) : parse (serialize l) = l.
Proof.
  unfold parse. induction l as [|p l IH]; [reflexivity|].
  assert (Hp : occurs "&" (serialize_pair p) = false)
    by (apply serialize_pair_free; [apply encode_byte_amp | reflexivity]).
  destruct l as [|p' l].
  - simpl serialize. rewrite (split_whole _ _ Hp). simpl.
    now rewrite parse_pair_serialize_pair.
  - change (serialize (p :: p' :: l))
      with (serialize_pair p ++ String "&" (serialize (p' :: l))).
    rewrite (split_append _ _ _ Hp).
    change (flat_map parse_pair (serialize_pair p :: split "&" (serialize (p' :: l))))
      with (parse_pair (serialize_pair p)
              ++ flat_map parse_pair (split "&" (serialize (p' :: l))))%list.
    now rewrite IH, parse_pair_serialize_pair.
Qed.

Lemma serialize_question (l : list (string * string)) :
  occurs "?" (serialize l) = false.
Proof.
  assert (Hp : forall p, occurs "?" (serialize_pair p) = false)
    by (intros p; apply serialize_pair_free; [apply encode_byte_question | reflexivity]).
  induction l as [|p l IH]; [reflexivity|].
  destruct l as [|p' l]; [apply Hp|].
  change (serialize (p :: p' :: l))
    with (serialize_pair p ++ String "&" (serialize (p' :: l))).
  rewrite occurs_append, Hp. simpl. exact IH.
Qed.

End UrlEncodedFacts.

(** [new URLSearchParams(p.toString())] is a copy of [p]. *)
Lemma of_string_toString (p : URLSearchParams.t) :
  URLSearchParams.of_string (URLSearchParams.toString p) = p.
Proof.
  unfold URLSearchParams.of_string, URLSearchParams.toString.
  pose proof (UrlEncodedFacts.serialize_question p) as H.
  destruct (UrlEncoded.serialize p) as [|c r] eqn:E.
  - rewrite <- E. apply UrlEncodedFacts.parse_serialize.
  - simpl in H. apply orb_false_elim in H. destruct H as [Hc _].
    rewrite Hc, <- E. apply UrlEncodedFacts.parse_serialize.
Qed.

(** The serialisation determines the list. *)
Lemma toString_inj (p q : URLSearchParams.t) :
  URLSearchParams.toString p = URLSearchParams.toString q -> p = q.
Proof.
  intros H. rewrite <- (of_string_toString p), <- (of_string_toString q).
  now rewrite H.
Qed.

(** ** The resolution function *)

(** C2, as amended.  [updateQueryState] carries out the decision procedure
    for every key, raw value, snapshot and options: without options, set the
    key iff the raw value is non-empty, else delete it; with a validator,
    set the validator's output on success, and on failure set the default
    when [onParseError] is "fallback" and a non-empty default is supplied,
    delete the key otherwise; without a validator, an empty raw value sets
    the non-empty default under "fallback" and deletes the key otherwise, and
    a non-empty raw value is set as it is.  A [defaultValue] that is the
    empty string counts as no default. *)
Theorem updateQueryState_resolves
    (key value : string) (searchParams : URLSearchParams.t)
    (options : option UseQueryStateOptions) :
  updateQueryState (key, value) searchParams options
  = Spec.apply key searchParams (Spec.resolve usableDefault value options).
Proof.
  unfold updateQueryState, Spec.resolve, usableDefault, truthy_opt.
  destruct options as [[[ | |d] [ | |validator] [ | |[]]]|]; simpl;
    try destruct (validator value);
    try destruct (truthy d); destruct (truthy value); reflexivity.
Qed.

(** C2, as the claim words it, fails: with an empty-string default, a
    validator that rejects the value and the "fallback" policy, the key is
    deleted and not set to the default. *)
Lemma updateQueryState_empty_default :
  let options := Some {| defaultValue := given "";
                         schema := given (fun _ => None);
                         onParseError := missing |} in
  updateQueryState ("status", "x") [("status", "x")] options = []
  /\ Spec.apply "status" [("status", "x")]
       (Spec.resolve suppliedDefault "x" options) = [("status", "")]
  /\ ~ (forall key value searchParams options,
          updateQueryState (key, value) searchParams options
          = Spec.apply key searchParams (Spec.resolve suppliedDefault value options)).
Proof.
  split; [reflexivity|]. split; [reflexivity|].
  intros H.
  specialize (H "status" "x" [("status", "x")]
                (Some {| defaultValue := given "";
                         schema := given (fun _ => None);
                         onParseError := missing |})).
  discriminate H.
Qed.

(** ** The reconciliation predicate *)

(** C3, as amended.  [shouldUpdateQueryState] is false when no options are
    configured, the key is present and its value is non-empty; otherwise it
    is the disjunction of the five conditions, in which "a default" is a
    non-empty [defaultValue]. *)
Theorem shouldUpdateQueryState_rules
    (key value : string) (options : option UseQueryStateOptions)
    (paramExists isInitialMount : bool)
    (previousSearchParams : option URLSearchParams.t) :
  shouldUpdateQueryState key value options paramExists previousSearchParams
    isInitialMount
  = Spec.needsCorrection usableDefault key value paramExists isInitialMount
      options previousSearchParams.
Proof.
  unfold shouldUpdateQueryState, Spec.needsCorrection, Spec.configured,
    usableDefault, Object_keys_length, truthy_opt.
  destruct options as [[[ | |d] [ | |validator] [ | |policy]]|]; simpl;
    try destruct (truthy d) eqn:Hd; simpl;
    destruct paramExists, isInitialMount, (truthy value) eqn:Hv; simpl;
    try reflexivity;
    try (apply truthy_false in Hd; subst d);
    try (apply truthy_false in Hv; subst value);
    simpl; try reflexivity;
    destruct value; try discriminate; simpl; rewrite ?orb_false_r; reflexivity.
Qed.

(** C3, as the claim words it, fails: on the first observation, with an
    empty-string default and a present value "x" that differs from it, no
    correction is asked for. *)
Lemma shouldUpdateQueryState_empty_default :
  let options := Some {| defaultValue := given ""; schema := missing; onParseError := missing |} in
  shouldUpdateQueryState "sort" "x" options true (Some [("sort", "x")]) true = false
  /\ Spec.needsCorrection suppliedDefault "sort" "x" true true options
       (Some [("sort", "x")]) = true
  /\ ~ (forall key value options paramExists previousSearchParams isInitialMount,
          shouldUpdateQueryState key value options paramExists previousSearchParams
            isInitialMount
          = Spec.needsCorrection suppliedDefault key value paramExists isInitialMount
              options previousSearchParams).
Proof.
  split; [reflexivity|]. split; [reflexivity|].
  intros H.
  specialize (H "sort" "x"
                (Some {| defaultValue := given ""; schema := missing;
                         onParseError := missing |})
                true (Some [("sort", "x")]) true).
  discriminate H.
Qed.

(** ** An empty options object *)

(** C10.  [{}] and no options at all are treated alike, by
    [shouldUpdateQueryState] and by [updateQueryState]. *)
Theorem empty_options_as_none
    (key value : string) (paramExists isInitialMount : bool)
    (previousSearchParams : option URLSearchParams.t)
    (searchParams : URLSearchParams.t) :
  shouldUpdateQueryState key value (Some emptyOptions) paramExists
    previousSearchParams isInitialMount
  = shouldUpdateQueryState key value None paramExists previousSearchParams
      isInitialMount
  /\ updateQueryState (key, value) searchParams (Some emptyOptions)
     = updateQueryState (key, value) searchParams None.
Proof.
  split.
  - reflexivity.
  - unfold updateQueryState, emptyOptions; simpl.
    destruct (truthy value); reflexivity.
Qed.

(** ** [safeTry] *)

(** C9.  [safeTry(x)] returns [[x, null]] for every [x]: the handler is never
    entered and the error component is always null. *)
Theorem safeTry_returns (T E : Type) (x : T) :
  @safeTry T E x = Exn.Return (Some x, None).
Proof. reflexivity. Qed.

(** An argument expression that throws does so before the call: the
    exception leaves the call expression, it does not become [[null, e]]. *)
Lemma safeTry_argument_throws (T E : Type) (e : E) :
  Exn.call (Exn.Throw e) (@safeTry T E) = Exn.Throw e.
Proof. reflexivity. Qed.

(** ** Duplicate keys *)

Module TypesFacts.
Import Types.



End TypesFacts.



(** ** What one update does to a snapshot *)

(** An update sets its key or deletes it. *)
Lemma updateQueryState_cases (key value : string) (p : URLSearchParams.t)
    (options : option UseQueryStateOptions) :
  (exists v, updateQueryState (key, value) p options = URLSearchParams.set p key v)
  \/ updateQueryState (key, value) p options = URLSearchParams.delete p key.
Proof.
  unfold updateQueryState, truthy_opt.
  destruct options as [[[ | |d] [ | |validator] [ | |[]]]|]; simpl;
    try destruct (validator value);
    try destruct (truthy d); destruct (truthy value); simpl; eauto.
Qed.

Lemma mentions_In (k : string) (ks : list string) :
  existsb (String.eqb k) ks = true <-> In k ks.
Proof.
  rewrite existsb_exists. split.
  - intros [y [Hy E]]. apply String.eqb_eq in E. now subst.
  - intros H. exists k. split; [exact H | apply String.eqb_refl].
Qed.

Lemma others_delete (ks : list string) (p : URLSearchParams.t) (key : string) :
  In key ks -> others ks (URLSearchParams.delete p key) = others ks p.
Proof.
  intros Hk. unfold others, URLSearchParams.delete.
  induction p as [|[n v] p IH]; simpl; [reflexivity|].
  destruct (String.eqb_spec n key) as [->|Hn]; simpl.
  - apply mentions_In in Hk. rewrite Hk. simpl. exact IH.
  - now rewrite IH.
Qed.

Lemma others_set (ks : list string) (p : URLSearchParams.t) (key value : string) :
  In key ks -> others ks (URLSearchParams.set p key value) = others ks p.
Proof.
  intros Hk.
  induction p as [|[n v] p IH]; simpl.
  - unfold others. simpl. apply mentions_In in Hk. now rewrite Hk.
  - destruct (String.eqb_spec n key) as [->|Hn].
    + pose proof (others_delete ks p key Hk) as Hd. unfold others in *. simpl.
      apply mentions_In in Hk. rewrite Hk. simpl. exact Hd.
    + unfold others in *. simpl. now rewrite IH.
Qed.

(** The tuples of the other names are left as they are, in order. *)
Lemma updateQueryState_others (ks : list string) (key value : string)
    (p : URLSearchParams.t) (options : option UseQueryStateOptions) :
  In key ks -> others ks (updateQueryState (key, value) p options) = others ks p.
Proof.
  intros Hk.
  destruct (updateQueryState_cases key value p options) as [[v ->] | ->].
  - now apply others_set.
  - now apply others_delete.
Qed.

Lemma applyUpdates_others (ks : list string) (updates : list (string * string))
    (p : URLSearchParams.t) (options : option (list (string * UseQueryStateOptions))) :
  (forall u, In u updates -> In (fst u) ks) ->
  others ks (applyUpdates updates p options) = others ks p.
Proof.
  revert p. induction updates as [|[k v] updates IH]; intros p H; simpl; [reflexivity|].
  rewrite IH by (intros u Hu; apply H; now right).
  apply updateQueryState_others. apply (H (k, v)). now left.
Qed.

Lemma updateQueryState_nil (key value : string) (options : option UseQueryStateOptions) :
  names (updateQueryState (key, value) [] options) = []
  \/ names (updateQueryState (key, value) [] options) = [key].
Proof.
  destruct (updateQueryState_cases key value [] options) as [[v ->] | ->]; simpl; auto.
Qed.

(** ** The hooks, step by step *)

Lemma href_inj (pathname a b : string) : href pathname a = href pathname b -> a = b.
Proof.
  unfold href. induction pathname as [|c r IH]; simpl; intros H.
  - now inversion H.
  - inversion H. auto.
Qed.

Section Steps.

Variable pathname : string.

(** What [setQueryState] leaves behind. *)
Lemma setQueryState_exec (key : string) (options : option UseQueryStateOptions)
    (value : string) (st : Refs) :
  exec (setQueryState key options pathname value) st
  = let existing := option_map URLSearchParams.toString (_stableSearchParams st) in
    let u := updateQueryState (key, value)
               (URLSearchParams.of_string (nullish existing "")) options in
    if opt_eqb (Some (URLSearchParams.toString u)) existing then st
    else {| _stableSearchParams := Some u;
            _paramUpdates := _paramUpdates st;
            router := (router st ++ [href pathname (URLSearchParams.toString u)])%list |}.
Proof.
  cbv beta iota zeta delta
    [exec setQueryState createQueryState bind read_stableSearchParams
     write_stableSearchParams router_replace ret snd].
  destruct (opt_eqb _ _); reflexivity.
Qed.

(** What [_updateSearchParams] leaves behind. *)
Lemma _updateSearchParams_exec
    (options : option (list (string * UseQueryStateOptions)))
    (updates : NonEmptyArray (string * string)) (st : Refs) :
  exec (_updateSearchParams options pathname updates) st
  = let existing := option_map URLSearchParams.toString (_stableSearchParams st) in
    let u := applyUpdates (toArray updates)
               (URLSearchParams.of_string (nullish existing "")) options in
    if opt_eqb (Some (URLSearchParams.toString u)) existing then st
    else {| _stableSearchParams := Some u;
            _paramUpdates := _paramUpdates st;
            router := (router st ++ [href pathname (URLSearchParams.toString u)])%list |}.
Proof.
  cbv beta iota zeta delta
    [exec _updateSearchParams createQueryState bind read_stableSearchParams
     write_stableSearchParams router_replace ret snd].
  destruct (opt_eqb _ _); reflexivity.
Qed.

End Steps.

Lemma exec_bind {A B} (m : M A) (k : A -> M B) (st : Refs) :
  exec (bind m k) st = exec (k (fst (m st))) (snd (m st)).
Proof. unfold exec, bind. destruct (m st); reflexivity. Qed.

Section Passes.

Variable pathname : string.

(** The effect of the single-key hook either leaves the router alone or
    commits the observed snapshot with its key updated, which then differs
    from the observed snapshot. *)
Lemma useQueryState_effect_commit (key : string)
    (options : option UseQueryStateOptions)
    (searchParams : URLSearchParams.t) (st : Refs) :
  let st' := exec (useQueryState_effect key options pathname searchParams) st in
  let u := updateQueryState
             (key, nullish (URLSearchParams.get searchParams key) "")
             searchParams options in
  router st' = router st
  \/ (URLSearchParams.toString u <> URLSearchParams.toString searchParams
      /\ _stableSearchParams st' = Some u
      /\ router st' = (router st ++ [href pathname (URLSearchParams.toString u)])%list).
Proof.
  cbv zeta.
  cbv beta iota zeta delta [useQueryState_effect].
  rewrite exec_bind. cbv beta iota delta [read_stableSearchParams fst snd].
  rewrite exec_bind.
  set (st1 := snd ((if negb (present (_stableSearchParams st))
                    then write_stableSearchParams (Some searchParams)
                    else ret tt) st)).
  assert (H1 : router st1 = router st)
    by (subst st1; destruct (negb (present (_stableSearchParams st))); reflexivity).
  rewrite exec_bind. cbv beta iota delta [read_stableSearchParams fst snd].
  destruct (shouldUpdateQueryState _ _ _ _ _ _); [|left; exact H1].
  rewrite exec_bind, setQueryState_exec.
  cbv beta iota zeta delta [write_stableSearchParams snd fst
    _stableSearchParams _paramUpdates router option_map nullish].
  rewrite of_string_toString.
  destruct (opt_eqb_spec
              (Some (URLSearchParams.toString
                       (updateQueryState
                          (key, match URLSearchParams.get searchParams key with
                                | Some a => a | None => "" end)
                          searchParams options)))
              (Some (URLSearchParams.toString searchParams))) as [E|E].
  - left. exact H1.
  - right. fold (router st1). rewrite H1. split; [congruence|]. split; reflexivity.
Qed.

Variable options : option (list (string * UseQueryStateOptions)).

(** One turn of the batch hook's loop, entered without pending updates. *)
Lemma effect_body_exec (searchParams : URLSearchParams.t) (isInitialMount : bool)
    (key : string) (s : option URLSearchParams.t) (log : list string) :
  exec (effect_body options pathname searchParams isInitialMount key)
    {| _stableSearchParams := s; _paramUpdates := []; router := log |}
  = let value := nullish (URLSearchParams.get searchParams key) "" in
    if shouldUpdateQueryState key value (optionsFor options key)
         (URLSearchParams.has searchParams key) s isInitialMount
    then
      let u := updateQueryState (key, value) searchParams (optionsFor options key) in
      if opt_eqb (Some (URLSearchParams.toString u))
           (Some (URLSearchParams.toString searchParams))
      then {| _stableSearchParams := Some searchParams;
              _paramUpdates := []; router := log |}
      else {| _stableSearchParams := Some u; _paramUpdates := [];
              router := (log ++ [href pathname (URLSearchParams.toString u)])%list |}
    else {| _stableSearchParams := s; _paramUpdates := []; router := log |}.
Proof.
  cbv beta iota zeta delta
    [exec effect_body bind read_stableSearchParams read_paramUpdates
     write_paramUpdates write_stableSearchParams ret snd fst
     _stableSearchParams _paramUpdates router].
  destruct (shouldUpdateQueryState _ _ _ _ _ _); [|reflexivity].
  cbv beta iota zeta delta
    [app _updateSearchParams createQueryState toArray applyUpdates bind
     read_stableSearchParams write_stableSearchParams router_replace ret
     snd fst option_map nullish _stableSearchParams _paramUpdates router].
  rewrite of_string_toString.
  destruct (opt_eqb _ _); reflexivity.
Qed.

(** The passes of the batch hook: every commit is the observed snapshot
    with one tracked key updated, and differs from the observed snapshot;
    no update is left pending. *)
Lemma for_each_effect_body (searchParams : URLSearchParams.t)
    (isInitialMount : bool) (keys : list string) :
  forall (s : option URLSearchParams.t) (log : list string),
  exists s' commits,
    exec (for_each keys (effect_body options pathname searchParams isInitialMount))
      {| _stableSearchParams := s; _paramUpdates := []; router := log |}
    = {| _stableSearchParams := s'; _paramUpdates := [];
         router := (log ++ map (fun u => href pathname (URLSearchParams.toString u))
                            commits)%list |}
    /\ Forall (fun u =>
                 URLSearchParams.toString u <> URLSearchParams.toString searchParams
                 /\ exists key, In key keys
                      /\ u = updateQueryState
                               (key, nullish (URLSearchParams.get searchParams key) "")
                               searchParams (optionsFor options key))
         commits.
Proof.
  induction keys as [|key keys' IH]; intros s log.
  - exists s, []. split; [|constructor].
    cbn. now rewrite app_nil_r.
  - cbn [for_each]. rewrite exec_bind.
    fold (exec (effect_body options pathname searchParams isInitialMount key)
            {| _stableSearchParams := s; _paramUpdates := []; router := log |}).
    rewrite effect_body_exec. cbv zeta.
    assert (Hmono : forall u,
      (URLSearchParams.toString u <> URLSearchParams.toString searchParams
       /\ exists k, In k keys'
            /\ u = updateQueryState
                     (k, nullish (URLSearchParams.get searchParams k) "")
                     searchParams (optionsFor options k)) ->
      (URLSearchParams.toString u <> URLSearchParams.toString searchParams
       /\ exists k, In k (key :: keys')
            /\ u = updateQueryState
                     (k, nullish (URLSearchParams.get searchParams k) "")
                     searchParams (optionsFor options k))).
    { intros u [Hu [k [Hk E]]]. split; [exact Hu|]. exists k. split; [now right | exact E]. }
    destruct (shouldUpdateQueryState _ _ _ _ _ _).
    + destruct (opt_eqb_spec
                  (Some (URLSearchParams.toString
                           (updateQueryState
                              (key, nullish (URLSearchParams.get searchParams key) "")
                              searchParams (optionsFor options key))))
                  (Some (URLSearchParams.toString searchParams))) as [E|E].
      * destruct (IH (Some searchParams) log) as [s' [commits [Hexec Hall]]].
        exists s', commits. split; [exact Hexec|].
        eapply Forall_impl; [exact Hmono | exact Hall].
      * match goal with
        | |- context [exec _ {| _stableSearchParams := ?s1; _paramUpdates := _;
                                router := ?l1 |}] =>
            destruct (IH s1 l1) as [s' [commits [Hexec Hall]]]
        end.
        exists s',
          (updateQueryState (key, nullish (URLSearchParams.get searchParams key) "")
             searchParams (optionsFor options key) :: commits).
        split.
        -- rewrite Hexec. cbn [map]. now rewrite <- app_assoc.
        -- constructor.
           ++ split; [congruence|]. exists key. split; [now left | reflexivity].
           ++ eapply Forall_impl; [exact Hmono | exact Hall].
    + destruct (IH s log) as [s' [commits [Hexec Hall]]].
      exists s', commits. split; [exact Hexec|].
      eapply Forall_impl; [exact Hmono | exact Hall].
Qed.

End Passes.

(** ** The setter before the first effect *)

(** C8.  When the setter of either hook runs while nothing is remembered
    yet, the query string is built on the empty one: the commit is always
    made, and the committed snapshot holds nothing but the key that is set
    (or nothing at all when the value resolves to a deletion), whatever the
    live snapshot holds. *)
Theorem setter_before_first_effect
    (pathname key value : string) (options : option UseQueryStateOptions)
    (optionsByKey : option (list (string * UseQueryStateOptions)))
    (pending : list (string * string)) (log : list string) :
  let st := {| _stableSearchParams := None; _paramUpdates := pending; router := log |} in
  let u := updateQueryState (key, value) [] options in
  let v := updateQueryState (key, value) [] (optionsFor optionsByKey key) in
  exec (setQueryState key options pathname value) st
  = {| _stableSearchParams := Some u; _paramUpdates := pending;
       router := (log ++ [href pathname (URLSearchParams.toString u)])%list |}
  /\ (names u = [] \/ names u = [key])
  /\ exec (setQueryStrings optionsByKey pathname key value) st
     = {| _stableSearchParams := Some v; _paramUpdates := pending;
          router := (log ++ [href pathname (URLSearchParams.toString v)])%list |}
  /\ (names v = [] \/ names v = [key]).
Proof.
  cbv zeta. split; [|split; [|split]].
  - rewrite setQueryState_exec. reflexivity.
  - apply updateQueryState_nil.
  - unfold setQueryStrings. rewrite _updateSearchParams_exec. reflexivity.
  - apply updateQueryState_nil.
Qed.

(** ** Keys the synchronizer does not write *)

Lemma of_string_remembered (s : option URLSearchParams.t) :
  URLSearchParams.of_string (nullish (option_map URLSearchParams.toString s) "")
  = nullish s [].
Proof. destruct s as [r|]; simpl; [apply of_string_toString | reflexivity]. Qed.

Lemma useQueriesState_effect_exec (pathname : string) (keys : list string)
    (options : option (list (string * UseQueryStateOptions)))
    (searchParams : URLSearchParams.t) (s : option URLSearchParams.t)
    (log : list string) :
  exec (useQueriesState_effect keys options pathname searchParams)
    {| _stableSearchParams := s; _paramUpdates := []; router := log |}
  = exec (for_each keys (effect_body options pathname searchParams (negb (present s))))
      {| _stableSearchParams := if present s then s else Some searchParams;
         _paramUpdates := []; router := log |}.
Proof. destruct s; reflexivity. Qed.

(** X26.  In every snapshot a synchronizer commits, the tuples of the keys
    that the commit does not update are those of the snapshot the candidate
    is built on, in their order and with their values: the snapshot just
    observed in a reconciliation pass (where a commit updates one tracked
    key and leaves the other tracked keys alone too), and in a setter call
    the snapshot the synchronizer remembers (the empty one when it remembers
    none). *)
Theorem commit_keeps_other_keys (pathname : string) :
  (forall key options value st,
     let st' := exec (setQueryState key options pathname value) st in
     st' = st
     \/ exists u,
          _stableSearchParams st' = Some u
          /\ router st' = (router st ++ [href pathname (URLSearchParams.toString u)])%list
          /\ others [key] u = others [key] (nullish (_stableSearchParams st) []))
  /\ (forall key options searchParams st,
        let st' := exec (useQueryState_effect key options pathname searchParams) st in
        router st' = router st
        \/ exists u,
             router st' = (router st ++ [href pathname (URLSearchParams.toString u)])%list
             /\ others [key] u = others [key] searchParams)
  /\ (forall options updates st,
        let st' := exec (_updateSearchParams options pathname updates) st in
        st' = st
        \/ exists u,
             _stableSearchParams st' = Some u
             /\ router st' = (router st ++ [href pathname (URLSearchParams.toString u)])%list
             /\ others (map fst (toArray updates)) u
                = others (map fst (toArray updates)) (nullish (_stableSearchParams st) []))
  /\ (forall keys options searchParams s log,
        exists commits,
          router (exec (useQueriesState_effect keys options pathname searchParams)
                    {| _stableSearchParams := s; _paramUpdates := []; router := log |})
          = (log ++ map (fun u => href pathname (URLSearchParams.toString u)) commits)%list
          /\ Forall (fun u =>
                       others keys u = others keys searchParams
                       /\ exists key, In key keys
                            /\ others [key] u = others [key] searchParams)
               commits).
Proof.
  split; [|split; [|split]].
  - intros key options value st. cbv zeta.
    rewrite setQueryState_exec. cbv zeta.
    destruct (opt_eqb _ _); [now left | right].
    eexists. split; [reflexivity|]. split; [reflexivity|].
    rewrite of_string_remembered. apply updateQueryState_others. now left.
  - intros key options searchParams st. cbv zeta.
    destruct (useQueryState_effect_commit pathname key options searchParams st)
      as [H | [_ [_ H]]]; [now left | right].
    eexists. split; [exact H|]. apply updateQueryState_others. now left.
  - intros options updates st. cbv zeta.
    rewrite _updateSearchParams_exec. cbv zeta.
    destruct (opt_eqb _ _); [now left | right].
    eexists. split; [reflexivity|]. split; [reflexivity|].
    rewrite of_string_remembered. apply applyUpdates_others.
    intros u Hu. now apply in_map.
  - intros keys options searchParams s log.
    rewrite useQueriesState_effect_exec.
    destruct (for_each_effect_body pathname options searchParams
                (negb (present s)) keys
                (if present s then s else Some searchParams) log)
      as [s' [commits [Hexec Hall]]].
    exists commits. rewrite Hexec. split; [reflexivity|].
    eapply Forall_impl; [|exact Hall].
    intros u [_ [key [Hkey ->]]]. split.
    + now apply updateQueryState_others.
    + exists key. split; [exact Hkey|].
      apply updateQueryState_others. now left.
Qed.

(** C7.  The setter does not build on the current external snapshot but on
    the one the hook remembers, which the effect refreshes only on mount and
    when a correction is needed.  Another writer changes [z] from 1 to 2; the
    snapshot is observed, needs no correction and is not remembered; the
    setter then builds on the older snapshot and commits [z=1]: the other
    writer's update is lost. *)
Lemma setter_commits_stale_key :
  let live := [("z", "2"); ("sort", "a")] in
  let events := [Observe [("z", "1"); ("sort", "a")]; Observe live; SetValue "sort" "b"] in
  router (exec (run (step_single "sort" None "/list") events) mounted)
  = ["/list?z=1&sort=b"]
  /\ URLSearchParams.get live "z" = Some "2"
  /\ URLSearchParams.get (URLSearchParams.of_string "z=1&sort=b") "z" = Some "1"
  /\ URLSearchParams.get (URLSearchParams.of_string "z=1&sort=b") "z"
     <> URLSearchParams.get live "z".
Proof. split; [|split; [|split]]; try reflexivity. discriminate. Qed.

(** ** Commits and the remembered serialization *)

Section Setters.

Variable pathname : string.

Lemma last_cons {A} (a : A) (l : list A) (d : A) : last (a :: l) d = last l a.
Proof.
  revert a d. induction l as [|b l IH]; intros a d; [reflexivity|].
  change (last (a :: b :: l) d) with (last (b :: l) d).
  now rewrite !(IH b).
Qed.

(** A sequence of calls of a setter whose every call either changes
    nothing or commits a query string other than the remembered one and
    remembers it: the commits form a chain, and what is remembered in the
    end is the last commit. *)
Lemma setter_calls_chain (A : Type) (call : A -> M unit) :
  (forall a st,
     exec (call a) st = st
     \/ exists u,
          Some (URLSearchParams.toString u)
            <> option_map URLSearchParams.toString (_stableSearchParams st)
          /\ _stableSearchParams (exec (call a) st) = Some u
          /\ router (exec (call a) st)
             = (router st ++ [href pathname (URLSearchParams.toString u)])%list) ->
  forall (calls : list A) (to_event : A -> Event) (step : Event -> M unit),
    (forall a, step (to_event a) = call a) ->
    forall st,
    exists qs,
      router (exec (run step (map to_event calls)) st)
      = (router st ++ map (href pathname) qs)%list
      /\ chain (option_map URLSearchParams.toString (_stableSearchParams st)) qs
      /\ option_map URLSearchParams.toString
           (_stableSearchParams (exec (run step (map to_event calls)) st))
         = last (map Some qs)
             (option_map URLSearchParams.toString (_stableSearchParams st)).
Proof.
  intros Hcall calls to_event step Hstep.
  induction calls as [|a calls IH]; intros st.
  - exists []. split; [cbn; now rewrite app_nil_r | split; [exact I | reflexivity]].
  - cbn [map run]. rewrite exec_bind, Hstep.
    fold (exec (call a) st).
    destruct (Hcall a st) as [-> | [u [Hne [Hs Hr]]]].
    + apply IH.
    + destruct (IH (exec (call a) st)) as [qs [Hrun [Hchain Hlast]]].
      exists (URLSearchParams.toString u :: qs). split; [|split].
      * rewrite Hrun, Hr. cbn [map]. now rewrite <- app_assoc.
      * rewrite Hs in Hchain. split; assumption.
      * rewrite Hlast, Hs. cbn [map option_map]. now rewrite last_cons.
Qed.

Lemma setQueryState_call (key : string) (options : option UseQueryStateOptions)
    (value : string) (st : Refs) :
  exec (setQueryState key options pathname value) st = st
  \/ exists u,
       Some (URLSearchParams.toString u)
         <> option_map URLSearchParams.toString (_stableSearchParams st)
       /\ _stableSearchParams (exec (setQueryState key options pathname value) st)
          = Some u
       /\ router (exec (setQueryState key options pathname value) st)
          = (router st ++ [href pathname (URLSearchParams.toString u)])%list.
Proof.
  rewrite setQueryState_exec. cbv zeta.
  match goal with |- context [opt_eqb ?a ?b] => destruct (opt_eqb_spec a b) as [E|E] end.
  - now left.
  - right. eexists. split; [exact E|]. split; reflexivity.
Qed.

Lemma _updateSearchParams_call
    (options : option (list (string * UseQueryStateOptions)))
    (updates : NonEmptyArray (string * string)) (st : Refs) :
  exec (_updateSearchParams options pathname updates) st = st
  \/ exists u,
       Some (URLSearchParams.toString u)
         <> option_map URLSearchParams.toString (_stableSearchParams st)
       /\ _stableSearchParams (exec (_updateSearchParams options pathname updates) st)
          = Some u
       /\ router (exec (_updateSearchParams options pathname updates) st)
          = (router st ++ [href pathname (URLSearchParams.toString u)])%list.
Proof.
  rewrite _updateSearchParams_exec. cbv zeta.
  match goal with |- context [opt_eqb ?a ?b] => destruct (opt_eqb_spec a b) as [E|E] end.
  - now left.
  - right. eexists. split; [exact E|]. split; reflexivity.
Qed.

End Setters.

(** The loop of the batch hook, seen through the candidates it builds, one
    for each key that is flushed: the candidates that differ from the
    observed snapshot are committed, in order, and what is remembered in the
    end is the last candidate. *)
Lemma for_each_effect_body_candidates (pathname : string)
    (options : option (list (string * UseQueryStateOptions)))
    (searchParams : URLSearchParams.t) (isInitialMount : bool) (keys : list string) :
  forall (s : option URLSearchParams.t) (log : list string),
  exists candidates,
    exec (for_each keys (effect_body options pathname searchParams isInitialMount))
      {| _stableSearchParams := s; _paramUpdates := []; router := log |}
    = {| _stableSearchParams := last (map Some candidates) s;
         _paramUpdates := [];
         router :=
           (log ++ map (fun u => href pathname (URLSearchParams.toString u))
                     (filter
                        (fun u => negb (opt_eqb (Some (URLSearchParams.toString u))
                                          (Some (URLSearchParams.toString searchParams))))
                        candidates))%list |}.
Proof.
  induction keys as [|key keys IH]; intros s log.
  - exists []. cbn. now rewrite app_nil_r.
  - cbn [for_each]. rewrite exec_bind.
    fold (exec (effect_body options pathname searchParams isInitialMount key)
            {| _stableSearchParams := s; _paramUpdates := []; router := log |}).
    rewrite effect_body_exec. cbv zeta.
    destruct (shouldUpdateQueryState _ _ _ _ _ _); [|apply IH].
    destruct (opt_eqb_spec
                (Some (URLSearchParams.toString
                         (updateQueryState
                            (key, nullish (URLSearchParams.get searchParams key) "")
                            searchParams (optionsFor options key))))
                (Some (URLSearchParams.toString searchParams))) as [E|E].
    + destruct (IH (Some searchParams) log) as [candidates Hexec].
      exists (updateQueryState
                (key, nullish (URLSearchParams.get searchParams key) "")
                searchParams (optionsFor options key) :: candidates).
      rewrite Hexec. cbn [map filter]. rewrite last_cons.
      destruct (opt_eqb_spec
                  (Some (URLSearchParams.toString
                           (updateQueryState
                              (key, nullish (URLSearchParams.get searchParams key) "")
                              searchParams (optionsFor options key))))
                  (Some (URLSearchParams.toString searchParams))) as [_|N];
        [|contradiction].
      cbn [negb].
      assert (Eu : updateQueryState
                     (key, nullish (URLSearchParams.get searchParams key) "")
                     searchParams (optionsFor options key) = searchParams)
        by (apply toString_inj; congruence).
      now rewrite Eu.
    + match goal with
      | |- context [exec _ {| _stableSearchParams := ?s1; _paramUpdates := _;
                              router := ?l1 |}] =>
          destruct (IH s1 l1) as [candidates Hexec]
      end.
      exists (updateQueryState
                (key, nullish (URLSearchParams.get searchParams key) "")
                searchParams (optionsFor options key) :: candidates).
      rewrite Hexec. cbn [map filter]. rewrite last_cons.
      destruct (opt_eqb_spec
                  (Some (URLSearchParams.toString
                           (updateQueryState
                              (key, nullish (URLSearchParams.get searchParams key) "")
                              searchParams (optionsFor options key))))
                  (Some (URLSearchParams.toString searchParams))) as [Y|_];
        [contradiction|].
      cbn [negb map]. now rewrite <- app_assoc.
Qed.

(** C4, as amended.  A commit is requested only when the candidate's
    serialization differs from that of the snapshot the synchronizer
    remembers at that moment, and the committed snapshot is remembered at
    once; a candidate that does not differ is dropped.  So the commits of
    successive setter calls, of either hook, form a chain in which each
    differs from the one before, and what is remembered after the calls is
    the last commit.  A pass of the single-key hook that commits remembers
    what it commits, which differs from the snapshot observed.  In the batch
    hook every turn of the loop that commits remembers what it commits; the
    commits of a pass are the candidates that differ from the snapshot
    observed, and what is remembered after the pass is the last candidate. *)
Theorem commit_differs_from_remembered (pathname : string) :
  (forall key options (values : list string) st,
     exists qs,
       router (exec (run (step_single key options pathname)
                       (map (SetValue key) values)) st)
       = (router st ++ map (href pathname) qs)%list
       /\ chain (option_map URLSearchParams.toString (_stableSearchParams st)) qs
       /\ option_map URLSearchParams.toString
            (_stableSearchParams
               (exec (run (step_single key options pathname)
                        (map (SetValue key) values)) st))
          = last (map Some qs)
              (option_map URLSearchParams.toString (_stableSearchParams st)))
  /\ (forall keys options (calls : list (string * string)) st,
        exists qs,
          router (exec (run (step_batch keys options pathname)
                          (map (fun c => SetValue (fst c) (snd c)) calls)) st)
          = (router st ++ map (href pathname) qs)%list
          /\ chain (option_map URLSearchParams.toString (_stableSearchParams st)) qs
          /\ option_map URLSearchParams.toString
               (_stableSearchParams
                  (exec (run (step_batch keys options pathname)
                           (map (fun c => SetValue (fst c) (snd c)) calls)) st))
             = last (map Some qs)
                 (option_map URLSearchParams.toString (_stableSearchParams st)))
  /\ (forall key options searchParams st,
        let st' := exec (useQueryState_effect key options pathname searchParams) st in
        router st' = router st
        \/ exists u,
             URLSearchParams.toString u <> URLSearchParams.toString searchParams
             /\ _stableSearchParams st' = Some u
             /\ router st'
                = (router st ++ [href pathname (URLSearchParams.toString u)])%list)
  /\ (forall options searchParams isInitialMount key s log,
        let st' :=
          exec (effect_body options pathname searchParams isInitialMount key)
            {| _stableSearchParams := s; _paramUpdates := []; router := log |} in
        _paramUpdates st' = []
        /\ (router st' = log
            \/ exists u,
                 URLSearchParams.toString u <> URLSearchParams.toString searchParams
                 /\ _stableSearchParams st' = Some u
                 /\ router st'
                    = (log ++ [href pathname (URLSearchParams.toString u)])%list))
  /\ (forall keys options searchParams s log,
        exists candidates,
          let commits :=
            filter
              (fun u => negb (opt_eqb (Some (URLSearchParams.toString u))
                                (Some (URLSearchParams.toString searchParams))))
              candidates in
          exec (useQueriesState_effect keys options pathname searchParams)
            {| _stableSearchParams := s; _paramUpdates := []; router := log |}
          = {| _stableSearchParams :=
                 last (map Some candidates) (if present s then s else Some searchParams);
               _paramUpdates := [];
               router :=
                 (log ++ map (fun u => href pathname (URLSearchParams.toString u))
                           commits)%list |}
          /\ Forall (fun u => URLSearchParams.toString u
                              <> URLSearchParams.toString searchParams) commits).
Proof.
  split; [|split; [|split; [|split]]].
  - intros key options values st.
    apply (setter_calls_chain pathname string (setQueryState key options pathname)).
    + intros a st0. apply setQueryState_call.
    + reflexivity.
  - intros keys options calls st.
    apply (setter_calls_chain pathname (string * string)
             (fun c => setQueryStrings options pathname (fst c) (snd c))).
    + intros a st0. apply _updateSearchParams_call.
    + reflexivity.
  - intros key options searchParams st. cbv zeta.
    destruct (useQueryState_effect_commit pathname key options searchParams st)
      as [H | [Hne [Hs H]]]; [now left | right].
    eexists. split; [exact Hne|]. split; [exact Hs | exact H].
  - intros options searchParams isInitialMount key s log. cbv zeta.
    rewrite effect_body_exec. cbv zeta.
    destruct (shouldUpdateQueryState _ _ _ _ _ _); [|split; [reflexivity | now left]].
    match goal with |- context [opt_eqb ?a ?b] => destruct (opt_eqb_spec a b) as [E|E] end.
    + split; [reflexivity | now left].
    + split; [reflexivity | right].
      eexists. split; [|split; reflexivity]. congruence.
  - intros keys options searchParams s log.
    rewrite useQueriesState_effect_exec.
    destruct (for_each_effect_body_candidates pathname options searchParams
                (negb (present s)) keys
                (if present s then s else Some searchParams) log)
      as [candidates Hexec].
    exists candidates. cbv zeta. split; [exact Hexec|].
    apply Forall_forall. intros u Hu. apply filter_In in Hu. destruct Hu as [_ Hu].
    apply negb_true_iff in Hu. intros E. rewrite E in Hu.
    destruct (opt_eqb_spec (Some (URLSearchParams.toString searchParams))
                (Some (URLSearchParams.toString searchParams)));
      [discriminate | congruence].
Qed.

(** C4, as the claim words it, fails.  The default is committed on mount;
    the environment shows the committed snapshot; then the key is removed
    from outside, and the same serialization is committed again: two
    consecutive commits that are equal. *)
Lemma same_serialization_committed_twice :
  let options := Some {| defaultValue := given "name"; schema := missing;
                         onParseError := missing |} in
  let events := [Observe []; Observe [("sort", "name")]; Observe []] in
  router (exec (run (step_single "sort" options "/list") events) mounted)
  = ["/list?sort=name"; "/list?sort=name"]
  /\ ~ chain None ["sort=name"; "sort=name"].
Proof.
  split; [reflexivity|].
  intros [_ [H _]]. now apply H.
Qed.

(** ** The batch synchronizer's pass *)

(** C1.  The pass of [useQueriesState] does not batch: the pending updates
    are flushed inside the loop, once for each key that needs correction.
    With keys page and sort, page absent with default 1 and sort invalid with
    default name, two commits are made, each built on the observed snapshot,
    and neither holds both corrections; the pass as specified makes one. *)
Theorem useQueriesState_effect_commits_per_key :
  let options :=
    Some [("page", {| defaultValue := given "1"; schema := missing; onParseError := missing |});
          ("sort", {| defaultValue := given "name";
                      schema := given (z_enum ["name"; "date"]);
                      onParseError := missing |})] in
  router (exec (useQueriesState_effect ["page"; "sort"] options "/list"
                  [("sort", "bogus")]) mounted)
  = ["/list?sort=bogus&page=1"; "/list?sort=name"]
  /\ router (exec (Spec.batch_pass ["page"; "sort"] options "/list"
                     [("sort", "bogus")]) mounted)
     = ["/list?sort=name&page=1"]
  /\ router (exec (useQueriesState_effect ["page"; "sort"] options "/list" []) mounted)
     = ["/list?page=1"; "/list?sort=name"]
  /\ router (exec (Spec.batch_pass ["page"; "sort"] options "/list" []) mounted)
     = ["/list?page=1&sort=name"].
Proof. split; [|split; [|split]]; reflexivity. Qed.

(** C5.  Within a pass the remembered snapshot, against which the predicate
    compares a validated key's value, is replaced when an earlier key is
    flushed.  Here page is restored first; when status is reached the
    remembered snapshot already holds the observed value of status, the
    predicate no longer sees the outside edit, and the invalid value stays.
    Against the snapshot remembered before the pass the predicate asks for
    the correction. *)
Theorem later_key_sees_earlier_flush :
  let options :=
    Some [("page", {| defaultValue := given "1"; schema := missing; onParseError := missing |});
          ("status", {| defaultValue := missing;
                        schema := given (z_enum ["active"; "inactive"]);
                        onParseError := missing |})] in
  let keys := ["page"; "status"] in
  let before :=
    exec (useQueriesState_effect keys options "/list"
            [("page", "1"); ("status", "active")]) mounted in
  let observed := [("status", "ACTIVE")] in
  let at_status := exec (effect_body options "/list" observed false "page") before in
  before = {| _stableSearchParams := Some [("page", "1"); ("status", "active")];
              _paramUpdates := []; router := [] |}
  /\ shouldUpdateQueryState "status" "ACTIVE" (optionsFor options "status") true
       (_stableSearchParams before) false = true
  /\ shouldUpdateQueryState "status" "ACTIVE" (optionsFor options "status") true
       (_stableSearchParams at_status) false = false
  /\ router (exec (useQueriesState_effect keys options "/list" observed) before)
     = ["/list?status=ACTIVE&page=1"]
  /\ router (exec (Spec.batch_pass keys options "/list" observed) before)
     = ["/list?page=1"].
Proof. split; [|split; [|split; [|split]]]; reflexivity. Qed.


(** ** Worked examples *)

(** Default on mount: with the default name and no sort key in the first
    snapshot, the first pass commits sort=name. *)
Example default_on_mount :
  let options := Some {| defaultValue := given "name"; schema := missing;
                         onParseError := missing |} in
  router (exec (useQueryState_effect "sort" options "/list" []) mounted)
  = ["/list?sort=name"].
Proof. reflexivity. Qed.

(** Once the environment shows what was committed, nothing more is
    committed. *)
Example settled_after_commit :
  let options := Some {| defaultValue := given "name"; schema := missing;
                         onParseError := missing |} in
  let events := [Observe []; Observe [("sort", "name")]] in
  router (exec (run (step_single "sort" options "/list") events) mounted)
  = ["/list?sort=name"].
Proof. reflexivity. Qed.

(** An invalid value falls back to the default. *)
Example validator_fallback :
  let options := Some {| defaultValue := given "active";
                         schema := given (z_enum ["active"; "inactive"]);
                         onParseError := missing |} in
  updateQueryState ("status", "ACTIVE") [("q", "1"); ("status", "ACTIVE")] options
  = [("q", "1"); ("status", "active")].
Proof. reflexivity. Qed.

(** Without a default, an invalid value removes the key. *)
Example removal_without_fallback :
  let options := Some {| defaultValue := missing;
                         schema := given (z_enum ["active"; "inactive"]);
                         onParseError := given remove |} in
  updateQueryState ("status", "bogus") [("q", "1"); ("status", "bogus")] options
  = [("q", "1")].
Proof. reflexivity. Qed.

(** [set] keeps the place of the first tuple of the name and drops the
    later ones. *)
Example set_drops_later_tuples :
  URLSearchParams.set [("step", "goal"); ("q", "1"); ("step", "persona")] "step" "rules"
  = [("step", "rules"); ("q", "1")].
Proof. reflexivity. Qed.

(** * Further properties of the code *)

(** ** Reading a snapshot after writing it *)

Lemma get_delete (p : URLSearchParams.t) (key name : string) :
  URLSearchParams.get (URLSearchParams.delete p key) name
  = if String.eqb key name then None else URLSearchParams.get p name.
Proof.
  unfold URLSearchParams.delete.
  induction p as [|[n v] p IH]; simpl.
  - now destruct (String.eqb key name).
  - destruct (String.eqb_spec n key) as [->|Hn]; simpl.
    + rewrite IH. now destruct (String.eqb key name).
    + rewrite IH. destruct (String.eqb_spec key name) as [E|Hk].
      * subst name. destruct (String.eqb_spec n key); [contradiction | reflexivity].
      * reflexivity.
Qed.

Lemma get_set (p : URLSearchParams.t) (key value name : string) :
  URLSearchParams.get (URLSearchParams.set p key value) name
  = if String.eqb key name then Some value else URLSearchParams.get p name.
Proof.
  induction p as [|[n v] p IH]; simpl.
  - reflexivity.
  - destruct (String.eqb_spec n key) as [->|Hn]; simpl.
    + destruct (String.eqb key name) eqn:E; [reflexivity|].
      now rewrite get_delete, E.
    + rewrite IH. destruct (String.eqb_spec key name) as [E|Hk].
      * subst name. destruct (String.eqb_spec n key); [contradiction | reflexivity].
      * reflexivity.
Qed.

Lemma has_get (p : URLSearchParams.t) (name : string) :
  URLSearchParams.has p name = present (URLSearchParams.get p name).
Proof.
  unfold URLSearchParams.has.
  induction p as [|[n v] p IH]; simpl; [reflexivity|].
  now destruct (String.eqb n name).
Qed.

(** The outcome of an update does not depend on the snapshot: the key is
    set to one and the same value, or deleted, whatever the snapshot. *)
Lemma updateQueryState_uniform (key value : string)
    (options : option UseQueryStateOptions) :
  (exists w, forall p,
     updateQueryState (key, value) p options = URLSearchParams.set p key w)
  \/ (forall p, updateQueryState (key, value) p options = URLSearchParams.delete p key).
Proof.
  unfold updateQueryState, truthy_opt.
  destruct options as [[[ | |d] [ | |validator] [ | |[]]]|]; simpl;
    try destruct (validator value);
    try destruct (truthy d); destruct (truthy value); simpl; eauto.
Qed.

(** X1.  [createQueryState] started on the serialization of a snapshot acts
    on the snapshot itself: going through the query string and back loses
    nothing, neither duplicate tuples nor empty values nor any byte. *)
Theorem createQueryState_on_serialization
    (p : URLSearchParams.t) (update : string * string)
    (options : option UseQueryStateOptions)
    (updates : NonEmptyArray (string * string))
    (optionsByKey : option (list (string * UseQueryStateOptions))) :
  createQueryState (OneUpdate update (URLSearchParams.toString p) options)
  = updateQueryState update p options
  /\ createQueryState (ManyUpdates updates (URLSearchParams.toString p) optionsByKey)
     = applyUpdates (toArray updates) p optionsByKey.
Proof.
  unfold createQueryState. now rewrite of_string_toString.
Qed.

(** X2.  After an update the key reads as the update decided, and that does
    not depend on the snapshot it was applied to; every other name reads as
    before. *)
Theorem get_after_update (key value name : string) (p : URLSearchParams.t)
    (options : option UseQueryStateOptions) :
  URLSearchParams.get (updateQueryState (key, value) p options) name
  = if String.eqb key name
    then URLSearchParams.get (updateQueryState (key, value) [] options) key
    else URLSearchParams.get p name.
Proof.
  destruct (updateQueryState_uniform key value options) as [[w H] | H];
    rewrite (H p), (H []).
  - rewrite !get_set, String.eqb_refl. reflexivity.
  - rewrite !get_delete, String.eqb_refl. reflexivity.
Qed.

Lemma occurrences_delete (p : URLSearchParams.t) (key : string) :
  occurrences key (URLSearchParams.delete p key) = 0.
Proof.
  unfold occurrences, URLSearchParams.delete.
  induction p as [|[n v] p IH]; simpl; [reflexivity|].
  destruct (String.eqb n key) eqn:E; simpl; [exact IH|].
  now rewrite E.
Qed.

Lemma occurrences_set (p : URLSearchParams.t) (key value : string) :
  occurrences key (URLSearchParams.set p key value) = 1.
Proof.
  induction p as [|[n v] p IH]; simpl.
  - unfold occurrences. simpl. now rewrite String.eqb_refl.
  - destruct (String.eqb n key) eqn:E.
    + pose proof (occurrences_delete p key) as H.
      unfold occurrences in *. simpl. rewrite E. simpl. now rewrite H.
    + unfold occurrences in *. simpl. rewrite E. exact IH.
Qed.

(** X3.  After an update the snapshot holds at most one tuple of the key:
    one when the key is there, none otherwise.  Duplicates of the updated
    key are collapsed. *)
Theorem update_collapses_duplicates (key value : string) (p : URLSearchParams.t)
    (options : option UseQueryStateOptions) :
  occurrences key (updateQueryState (key, value) p options)
  = if URLSearchParams.has (updateQueryState (key, value) p options) key
    then 1 else 0.
Proof.
  destruct (updateQueryState_uniform key value options) as [[w H] | H];
    rewrite (H p), has_get.
  - now rewrite occurrences_set, get_set, String.eqb_refl.
  - now rewrite occurrences_delete, get_delete, String.eqb_refl.
Qed.

Lemma delete_delete (p : URLSearchParams.t) (key : string) :
  URLSearchParams.delete (URLSearchParams.delete p key) key
  = URLSearchParams.delete p key.
Proof.
  unfold URLSearchParams.delete.
  induction p as [|[n v] p IH]; simpl; [reflexivity|].
  destruct (String.eqb n key) eqn:E; simpl; [exact IH|].
  now rewrite E, IH.
Qed.

Lemma set_set (p : URLSearchParams.t) (key v w : string) :
  URLSearchParams.set (URLSearchParams.set p key v) key w
  = URLSearchParams.set p key w.
Proof.
  induction p as [|[n x] p IH]; simpl.
  - now rewrite String.eqb_refl.
  - destruct (String.eqb n key) eqn:E; simpl; rewrite E.
    + now rewrite delete_delete.
    + now rewrite IH.
Qed.

(** X4.  Applying the same update twice is applying it once. *)
Theorem update_idempotent (update : string * string) (p : URLSearchParams.t)
    (options : option UseQueryStateOptions) :
  updateQueryState update (updateQueryState update p options) options
  = updateQueryState update p options.
Proof.
  destruct update as [key value].
  destruct (updateQueryState_uniform key value options) as [[w H] | H];
    rewrite !H.
  - apply set_set.
  - apply delete_delete.
Qed.

(** X5.  Without a schema an update never leaves the key with an empty
    value: the key ends up absent or with a non-empty value. *)
Theorem update_never_empty_without_schema (key value : string)
    (p : URLSearchParams.t) (options : option UseQueryStateOptions) :
  has_schema options = false ->
  URLSearchParams.get (updateQueryState (key, value) p options) key <> Some "".
Proof.
  intros H. unfold updateQueryState, truthy_opt.
  destruct options as [[[ | |d] [ | |validator] [ | |[]]]|]; simpl in *;
    try discriminate H;
    try destruct (truthy d) eqn:Hd; destruct (truthy value) eqn:Hv; simpl;
    rewrite ?get_set, ?get_delete, String.eqb_refl;
    intros E; inversion E; subst; discriminate.
Qed.

Lemma update_never_empty_without_schema_witness :
  has_schema (Some {| defaultValue := given "name"; schema := missing;
                      onParseError := missing |}) = false
  /\ URLSearchParams.get
       (updateQueryState ("sort", "") [("sort", "")]
          (Some {| defaultValue := given "name"; schema := missing;
                   onParseError := missing |})) "sort" <> Some "".
Proof.
  split; [reflexivity|].
  apply (update_never_empty_without_schema "sort" "" [("sort", "")]). reflexivity.
Defined.

(** X6.  Updates of two different keys can be applied in either order: every
    name reads the same afterwards (only the place of an appended tuple can
    differ). *)
Theorem updates_of_distinct_keys_commute
    (k1 v1 k2 v2 name : string) (p : URLSearchParams.t)
    (o1 o2 : option UseQueryStateOptions) :
  k1 <> k2 ->
  URLSearchParams.get
    (updateQueryState (k2, v2) (updateQueryState (k1, v1) p o1) o2) name
  = URLSearchParams.get
      (updateQueryState (k1, v1) (updateQueryState (k2, v2) p o2) o1) name.
Proof.
  intros Hk.
  destruct (updateQueryState_uniform k1 v1 o1) as [[w1 H1] | H1];
    destruct (updateQueryState_uniform k2 v2 o2) as [[w2 H2] | H2];
    rewrite !H1, !H2; repeat (rewrite get_set || rewrite get_delete);
    destruct (String.eqb_spec k1 name) as [E1|E1];
    destruct (String.eqb_spec k2 name) as [E2|E2];
    try reflexivity; congruence.
Qed.

Lemma updates_of_distinct_keys_commute_witness :
  "page" <> "sort"
  /\ URLSearchParams.get
       (updateQueryState ("sort", "name")
          (updateQueryState ("page", "2") [("q", "x")] None) None) "page"
     = URLSearchParams.get
         (updateQueryState ("page", "2")
            (updateQueryState ("sort", "name") [("q", "x")] None) None) "page".
Proof.
  split; [discriminate|].
  apply (updates_of_distinct_keys_commute "page" "2" "sort" "name" "page"). discriminate.
Defined.

(** The order of the tuples does depend on the order of the updates. *)
Example appended_tuples_keep_update_order :
  updateQueryState ("sort", "name") (updateQueryState ("page", "2") [] None) None
  = [("page", "2"); ("sort", "name")]
  /\ updateQueryState ("page", "2") (updateQueryState ("sort", "name") [] None) None
     = [("sort", "name"); ("page", "2")].
Proof. split; reflexivity. Qed.

(** ** The setter and the remembered snapshot *)

(** X7.  With a snapshot remembered, the setter of either hook commits
    exactly when the update changes that snapshot as a list of tuples: the
    comparison of the two serializations decides the same. *)
Theorem setter_commits_iff_changed
    (pathname key value : string) (options : option UseQueryStateOptions)
    (updates : NonEmptyArray (string * string))
    (optionsByKey : option (list (string * UseQueryStateOptions)))
    (r : URLSearchParams.t) (pending : list (string * string)) (log : list string) :
  let st := {| _stableSearchParams := Some r; _paramUpdates := pending; router := log |} in
  let u := updateQueryState (key, value) r options in
  let v := applyUpdates (toArray updates) r optionsByKey in
  (u = r -> exec (setQueryState key options pathname value) st = st)
  /\ (u <> r ->
      exec (setQueryState key options pathname value) st
      = {| _stableSearchParams := Some u; _paramUpdates := pending;
           router := (log ++ [href pathname (URLSearchParams.toString u)])%list |})
  /\ (v = r -> exec (_updateSearchParams optionsByKey pathname updates) st = st)
  /\ (v <> r ->
      exec (_updateSearchParams optionsByKey pathname updates) st
      = {| _stableSearchParams := Some v; _paramUpdates := pending;
           router := (log ++ [href pathname (URLSearchParams.toString v)])%list |}).
Proof.
  cbv zeta. rewrite setQueryState_exec, _updateSearchParams_exec.
  cbv beta iota zeta delta [_stableSearchParams _paramUpdates router option_map nullish].
  rewrite of_string_toString.
  split; [|split; [|split]]; intros H;
    match goal with |- context [opt_eqb ?a ?b] => destruct (opt_eqb_spec a b) as [E|E] end;
    try reflexivity.
  - rewrite H in E. congruence.
  - exfalso. apply H. apply toString_inj. congruence.
  - rewrite H in E. congruence.
  - exfalso. apply H. apply toString_inj. congruence.
Qed.

(** X8.  The setter of the batch hook, for a key, is the setter of the
    single-key hook with that key's options. *)
Theorem setQueryStrings_as_setQueryState
    (pathname key value : string)
    (optionsByKey : option (list (string * UseQueryStateOptions))) (st : Refs) :
  exec (setQueryStrings optionsByKey pathname key value) st
  = exec (setQueryState key (optionsFor optionsByKey key) pathname value) st.
Proof.
  unfold setQueryStrings. rewrite setQueryState_exec, _updateSearchParams_exec.
  reflexivity.
Qed.

(** ** The passes of the single-key hook *)

(** What the effect of [useQueryState] leaves behind. *)
Lemma useQueryState_effect_exec (pathname key : string)
    (options : option UseQueryStateOptions) (searchParams : URLSearchParams.t)
    (s : option URLSearchParams.t) (pending : list (string * string))
    (log : list string) :
  exec (useQueryState_effect key options pathname searchParams)
    {| _stableSearchParams := s; _paramUpdates := pending; router := log |}
  = let isInitialMount := negb (present s) in
    let previous := if present s then s else Some searchParams in
    let value := nullish (URLSearchParams.get searchParams key) "" in
    if shouldUpdateQueryState key value options
         (URLSearchParams.has searchParams key) previous isInitialMount
    then
      let u := updateQueryState (key, value) searchParams options in
      if opt_eqb (Some (URLSearchParams.toString u))
           (Some (URLSearchParams.toString searchParams))
      then {| _stableSearchParams := Some searchParams;
              _paramUpdates := pending; router := log |}
      else {| _stableSearchParams := Some u; _paramUpdates := pending;
              router := (log ++ [href pathname (URLSearchParams.toString u)])%list |}
    else {| _stableSearchParams := previous; _paramUpdates := pending; router := log |}.
Proof.
  destruct s as [r|];
    cbv beta iota zeta delta
      [exec useQueryState_effect bind read_stableSearchParams
       write_stableSearchParams ret snd fst negb present
       _stableSearchParams _paramUpdates router];
    (destruct (shouldUpdateQueryState _ _ _ _ _ _); [|reflexivity]);
    cbv beta iota zeta delta
      [setQueryState createQueryState bind read_stableSearchParams
       write_stableSearchParams router_replace ret snd fst option_map nullish
       _stableSearchParams _paramUpdates router];
    rewrite of_string_toString;
    destruct (opt_eqb _ _); reflexivity.
Qed.

(** Under the guard, an update sets a non-empty value, or it deletes the key
    and so does the update with the empty value. *)
Lemma update_under_guard (key value : string) (options : option UseQueryStateOptions) :
  schema_guard options ->
  (exists w, w <> ""
     /\ forall p, updateQueryState (key, value) p options = URLSearchParams.set p key w)
  \/ ((forall p, updateQueryState (key, value) p options = URLSearchParams.delete p key)
      /\ forall p, updateQueryState (key, "") p options = URLSearchParams.delete p key).
Proof.
  intros G. unfold updateQueryState, truthy_opt.
  destruct options as [o|].
  - destruct o as [dv sc pe]. simpl.
    destruct sc as [ | |validator]; simpl.
    + destruct dv as [ | |d], pe as [ | |[]]; simpl;
        try destruct (truthy d) eqn:Hd; destruct (truthy value) eqn:Hv; simpl;
        try (apply truthy_false in Hv; subst value);
        try (apply truthy_true in Hv); try (apply truthy_true in Hd);
        eauto.
    + destruct dv as [ | |d], pe as [ | |[]]; simpl;
        try destruct (truthy d) eqn:Hd; destruct (truthy value) eqn:Hv; simpl;
        try (apply truthy_false in Hv; subst value);
        try (apply truthy_true in Hv); try (apply truthy_true in Hd);
        eauto.
    + destruct (G _ validator eq_refl eq_refl) as [G0 G1].
      rewrite G0.
      destruct (validator value) as [data|] eqn:Hval.
      * left. exists data. split; [|reflexivity].
        intros ->. exact (G1 value Hval).
      * destruct dv as [ | |d], pe as [ | |[]]; simpl;
          try destruct (truthy d) eqn:Hd; simpl;
          try (apply truthy_true in Hd); eauto.
  - destruct (truthy value) eqn:Hv.
    + apply truthy_true in Hv. eauto.
    + right. split; reflexivity.
Qed.

(** A pass that observes the very snapshot the hook remembers, when that
    snapshot is the result of an update of the tracked key, commits nothing. *)
Lemma pass_on_remembered_update (pathname key value : string)
    (options : option UseQueryStateOptions) (p u : URLSearchParams.t)
    (pending : list (string * string)) (log : list string) :
  schema_guard options ->
  u = updateQueryState (key, value) p options ->
  router
    (exec (useQueryState_effect key options pathname u)
       {| _stableSearchParams := Some u; _paramUpdates := pending; router := log |})
  = log.
Proof.
  intros G ->. rewrite useQueryState_effect_exec. cbv zeta.
  destruct (update_under_guard key value options G) as [[w [Hw H]] | [H H0]].
  - rewrite (H p). rewrite has_get, get_set, String.eqb_refl.
    cbn [present nullish negb].
    assert (S : forall o, shouldUpdateQueryState key w o true
                         (Some (URLSearchParams.set p key w)) false = false).
    { intros o. unfold shouldUpdateQueryState.
      rewrite get_set, String.eqb_refl.
      apply truthy_true in Hw. rewrite Hw. simpl.
      rewrite String.eqb_refl. simpl.
      rewrite !andb_false_r. now destruct (negb _). }
    rewrite (S options). reflexivity.
  - rewrite (H p). rewrite has_get, get_delete, String.eqb_refl.
    cbn [present nullish negb].
    rewrite (H0 (URLSearchParams.delete p key)), delete_delete.
    destruct (shouldUpdateQueryState _ _ _ _ _ _); [|reflexivity].
    destruct (opt_eqb_spec
                (Some (URLSearchParams.toString (URLSearchParams.delete p key)))
                (Some (URLSearchParams.toString (URLSearchParams.delete p key))));
      [reflexivity | congruence].
Qed.

(** X9.  After a call of the setter, a pass that observes the snapshot the
    hook now remembers (the one just committed, when the call committed)
    commits nothing, provided the schema, if there is one, rejects the empty
    string and never gives it as output. *)
Theorem settled_after_setter (pathname key value : string)
    (options : option UseQueryStateOptions) (st : Refs) :
  schema_guard options ->
  router
    (exec (useQueryState_effect key options pathname
             (nullish (_stableSearchParams
                         (exec (setQueryState key options pathname value) st)) []))
       (exec (setQueryState key options pathname value) st))
  = router (exec (setQueryState key options pathname value) st).
Proof.
  intros G. destruct st as [s pending log].
  rewrite setQueryState_exec.
  cbv beta iota zeta delta [_stableSearchParams _paramUpdates router].
  destruct s as [r|]; cbn [option_map nullish].
  - rewrite of_string_toString.
    destruct (opt_eqb_spec
                (Some (URLSearchParams.toString (updateQueryState (key, value) r options)))
                (Some (URLSearchParams.toString r))) as [E|E].
    + cbn [_stableSearchParams router nullish].
      apply (pass_on_remembered_update pathname key value options r); [exact G|].
      symmetry. apply toString_inj. congruence.
    + cbn [_stableSearchParams router nullish].
      now apply (pass_on_remembered_update pathname key value options r).
  - cbn [opt_eqb _stableSearchParams router nullish].
    now apply (pass_on_remembered_update pathname key value options
                 (URLSearchParams.of_string "")).
Qed.

Lemma settled_after_setter_witness :
  let options := Some {| defaultValue := given "goal";
                         schema := given (z_enum ["goal"; "persona"]);
                         onParseError := missing |} in
  schema_guard options
  /\ router
       (exec (useQueryState_effect "step" options "/edit"
                (nullish (_stableSearchParams
                            (exec (setQueryState "step" options "/edit" "persona")
                               mounted)) []))
          (exec (setQueryState "step" options "/edit" "persona") mounted))
     = router (exec (setQueryState "step" options "/edit" "persona") mounted).
Proof.
  cbv zeta.
  assert (G : schema_guard
                (Some {| defaultValue := given "goal";
                         schema := given (z_enum ["goal"; "persona"]);
                         onParseError := missing |})).
  { intros o validator Ho Hs. inversion Ho; subst o. simpl in Hs.
    inversion Hs; subst validator. split; [reflexivity|].
    intros raw. unfold z_enum.
    destruct (existsb (String.eqb raw) ["goal"; "persona"]) eqn:E; [|discriminate].
    intros H. inversion H; subst raw. discriminate E. }
  split; [exact G|].
  apply (settled_after_setter "/edit" "step" "persona" _ mounted G).
Defined.

(** X10.  After a pass that committed, a pass that observes the committed
    snapshot commits nothing, under the same proviso on the schema: the
    single-key hook does not answer its own commit with another one. *)
Theorem settled_after_pass (pathname key : string)
    (options : option UseQueryStateOptions) (searchParams : URLSearchParams.t)
    (st : Refs) :
  schema_guard options ->
  router (exec (useQueryState_effect key options pathname searchParams) st)
    <> router st ->
  router
    (exec (useQueryState_effect key options pathname
             (nullish (_stableSearchParams
                         (exec (useQueryState_effect key options pathname searchParams)
                            st)) []))
       (exec (useQueryState_effect key options pathname searchParams) st))
  = router (exec (useQueryState_effect key options pathname searchParams) st).
Proof.
  intros G. destruct st as [s pending log].
  rewrite useQueryState_effect_exec. cbv zeta.
  destruct (shouldUpdateQueryState _ _ _ _ _ _);
    [|cbn [router]; intros H; now contradiction H].
  destruct (opt_eqb _ _); cbn [router]; intros H; [now contradiction H|].
  cbn [_stableSearchParams nullish].
  now apply (pass_on_remembered_update pathname key
               (nullish (URLSearchParams.get searchParams key) "")
               options searchParams).
Qed.

Lemma settled_after_pass_witness :
  let options := Some {| defaultValue := given "name"; schema := missing;
                         onParseError := missing |} in
  schema_guard options
  /\ router (exec (useQueryState_effect "sort" options "/list" []) mounted)
     <> router mounted
  /\ router
       (exec (useQueryState_effect "sort" options "/list"
                (nullish (_stableSearchParams
                            (exec (useQueryState_effect "sort" options "/list" [])
                               mounted)) []))
          (exec (useQueryState_effect "sort" options "/list" []) mounted))
     = router (exec (useQueryState_effect "sort" options "/list" []) mounted).
Proof.
  cbv zeta.
  assert (G : schema_guard
                (Some {| defaultValue := given "name"; schema := missing;
                         onParseError := missing |})).
  { intros o validator Ho Hs. inversion Ho; subst o. discriminate Hs. }
  assert (C : router (exec (useQueryState_effect "sort"
                              (Some {| defaultValue := given "name"; schema := missing;
                                       onParseError := missing |}) "/list" []) mounted)
              <> router mounted) by discriminate.
  split; [exact G|]. split; [exact C|].
  apply (settled_after_pass "/list" "sort" _ [] mounted G C).
Defined.

(** Without the proviso the hook can answer its own commit: a schema that
    rejects the first value and accepts the empty string makes the next pass
    commit again. *)
Example second_commit_without_guard :
  let options :=
    Some {| defaultValue := missing;
            schema := given (fun raw => if String.eqb raw "" then Some "all" else None);
            onParseError := missing |} in
  let events := [Observe [("filter", "x")]; Observe []] in
  router (exec (run (step_single "filter" options "/list") events) mounted)
  = ["/list?"; "/list?filter=all"].
Proof. reflexivity. Qed.

Lemma set_absent (p : URLSearchParams.t) (key value : string) :
  URLSearchParams.has p key = false ->
  URLSearchParams.set p key value = (p ++ [(key, value)])%list.
Proof.
  unfold URLSearchParams.has.
  induction p as [|[n v] p IH]; simpl; intros H; [reflexivity|].
  apply orb_false_elim in H. destruct H as [Hn Hp].
  now rewrite Hn, (IH Hp).
Qed.

Lemma toString_differs (p q : URLSearchParams.t) :
  p <> q -> Some (URLSearchParams.toString p) <> Some (URLSearchParams.toString q).
Proof. intros H E. apply H, toString_inj. congruence. Qed.

(** X11.  Whenever a pass finds the key absent while a non-empty default is
    configured under the fallback policy (and the schema, if there is one,
    rejects the empty string), it commits the observed snapshot with the
    default appended for the key, whatever the hook remembered. *)
Theorem absent_key_gets_default (pathname key d : string)
    (o : UseQueryStateOptions) (searchParams : URLSearchParams.t) (st : Refs) :
  URLSearchParams.has searchParams key = false ->
  usableDefault o = Some d ->
  nullish (read (onParseError o)) fallback = fallback ->
  rejects_empty (Some o) ->
  exec (useQueryState_effect key (Some o) pathname searchParams) st
  = {| _stableSearchParams := Some (searchParams ++ [(key, d)])%list;
       _paramUpdates := _paramUpdates st;
       router := (router st
                  ++ [href pathname
                        (URLSearchParams.toString (searchParams ++ [(key, d)])%list)])%list |}.
Proof.
  intros Habs Hd Hpol Hrej. destruct st as [s pending log].
  rewrite useQueryState_effect_exec. cbv zeta.
  assert (Hget : URLSearchParams.get searchParams key = None).
  { rewrite has_get in Habs. now destruct (URLSearchParams.get searchParams key). }
  rewrite Hget, Habs. cbn [nullish].
  destruct o as [dv sc pe]. unfold usableDefault in Hd. simpl in Hd, Hpol.
  destruct dv as [ | |d']; try discriminate Hd. simpl in Hd.
  destruct (truthy d') eqn:Ht; [|discriminate Hd]. inversion Hd; subst d'.
  assert (Hshould : forall previous isInitialMount,
            shouldUpdateQueryState key ""
              (Some {| defaultValue := given d; schema := sc; onParseError := pe |})
              false previous isInitialMount = true).
  { intros previous isInitialMount. unfold shouldUpdateQueryState, Object_keys_length.
    simpl. rewrite Ht. destruct sc, pe; simpl; now rewrite ?orb_true_r. }
  rewrite Hshould.
  assert (Hupd : updateQueryState (key, "") searchParams
                   (Some {| defaultValue := given d; schema := sc; onParseError := pe |})
                 = (searchParams ++ [(key, d)])%list).
  { rewrite <- (set_absent _ _ _ Habs).
    unfold updateQueryState. simpl. rewrite Hpol. simpl. rewrite Ht.
    destruct sc as [ | |validator]; simpl; try reflexivity.
    now rewrite (Hrej _ validator eq_refl eq_refl). }
  rewrite Hupd.
  destruct (opt_eqb_spec
              (Some (URLSearchParams.toString (searchParams ++ [(key, d)])%list))
              (Some (URLSearchParams.toString searchParams))) as [E|E];
    [|reflexivity].
  exfalso. revert E. apply toString_differs.
  intros E. apply (f_equal (@length _)) in E.
  rewrite length_app in E. simpl in E.
  rewrite Nat.add_comm in E. simpl in E.
  now apply Nat.neq_succ_diag_l in E.
Qed.

Lemma absent_key_gets_default_witness :
  let o := {| defaultValue := given "goal";
              schema := given (z_enum ["goal"; "persona"]);
              onParseError := missing |} in
  URLSearchParams.has [("q", "x")] "step" = false
  /\ usableDefault o = Some "goal"
  /\ nullish (read (onParseError o)) fallback = fallback
  /\ rejects_empty (Some o)
  /\ exec (useQueryState_effect "step" (Some o) "/edit" [("q", "x")]) mounted
     = {| _stableSearchParams := Some [("q", "x"); ("step", "goal")];
          _paramUpdates := [];
          router := ["/edit?q=x&step=goal"] |}.
Proof.
  cbv zeta.
  assert (R : rejects_empty
                (Some {| defaultValue := given "goal";
                         schema := given (z_enum ["goal"; "persona"]);
                         onParseError := missing |})).
  { intros o validator Ho Hs. inversion Ho; subst o. simpl in Hs.
    inversion Hs; subst validator. reflexivity. }
  split; [reflexivity|]. split; [reflexivity|]. split; [reflexivity|].
  split; [exact R|].
  apply (absent_key_gets_default "/edit" "step" "goal"
           {| defaultValue := given "goal";
              schema := given (z_enum ["goal"; "persona"]);
              onParseError := missing |}
           [("q", "x")] mounted eq_refl eq_refl eq_refl R).
Defined.

(** X12.  With options that carry neither a schema nor a usable default
    (among them: no options at all), the only commit a pass ever makes is the
    removal of the key when its first value is empty; then every tuple of
    the key is removed. *)
Theorem plain_pass_only_removes_empty (pathname key : string)
    (options : option UseQueryStateOptions) (searchParams : URLSearchParams.t)
    (st : Refs) :
  plain options = true ->
  router (exec (useQueryState_effect key options pathname searchParams) st)
  = (router st
     ++ if opt_eqb (URLSearchParams.get searchParams key) (Some "")
        then [href pathname
                (URLSearchParams.toString (URLSearchParams.delete searchParams key))]
        else [])%list.
Proof.
  intros Hplain. destruct st as [s pending log].
  rewrite useQueryState_effect_exec. cbv zeta. cbn [router].
  rewrite has_get.
  assert (Hshould : forall value paramExists previous isInitialMount,
            shouldUpdateQueryState key value options paramExists previous isInitialMount
            = paramExists && negb (truthy value)).
  { intros value paramExists previous isInitialMount.
    unfold shouldUpdateQueryState, Object_keys_length, truthy_opt.
    unfold plain, has_schema, usableDefault in Hplain.
    destruct options as [[[ | |d] [ | |validator] [ | |[]]]|];
      simpl in *; try discriminate Hplain;
      try (destruct (truthy d); try discriminate Hplain);
      destruct paramExists, isInitialMount, (truthy value); reflexivity. }
  assert (Hupd : forall p, updateQueryState (key, "") p options
                           = URLSearchParams.delete p key).
  { intros p. unfold updateQueryState, truthy_opt.
    unfold plain, has_schema, usableDefault in Hplain.
    destruct options as [[[ | |d] [ | |validator] [ | |[]]]|];
      simpl in *; try discriminate Hplain;
      try (destruct (truthy d); try discriminate Hplain); reflexivity. }
  rewrite Hshould.
  destruct (URLSearchParams.get searchParams key) as [v|] eqn:Hget;
    cbn [present nullish andb].
  - destruct v as [|c v]; cbn [truthy negb].
    + change (opt_eqb (Some "") (Some "")) with true. cbv iota.
      rewrite Hupd.
      destruct (opt_eqb_spec
                  (Some (URLSearchParams.toString (URLSearchParams.delete searchParams key)))
                  (Some (URLSearchParams.toString searchParams))) as [E|E];
        [|reflexivity].
      exfalso. revert E. apply toString_differs.
      intros E. rewrite <- E, get_delete, String.eqb_refl in Hget. discriminate Hget.
    + change (opt_eqb (Some (String c v)) (Some "")) with false. cbv iota.
      cbn [router]. now rewrite app_nil_r.
  - change (opt_eqb None (Some "")) with false. cbv iota.
    cbn [router]. now rewrite app_nil_r.
Qed.

Lemma plain_pass_only_removes_empty_witness :
  plain None = true
  /\ router (exec (useQueryState_effect "step" None "/edit"
                     [("step", ""); ("q", "x"); ("step", "goal")]) mounted)
     = (router mounted
        ++ if opt_eqb (URLSearchParams.get [("step", ""); ("q", "x"); ("step", "goal")]
                         "step") (Some "")
           then [href "/edit"
                   (URLSearchParams.toString
                      (URLSearchParams.delete
                         [("step", ""); ("q", "x"); ("step", "goal")] "step"))]
           else [])%list.
Proof.
  split; [reflexivity|].
  apply (plain_pass_only_removes_empty "/edit" "step" None
           [("step", ""); ("q", "x"); ("step", "goal")] mounted eq_refl).
Defined.

(** ** The batch hook *)

(** X13.  A pass in which no tracked key needs correction commits nothing
    and leaves the hook as it was, except that the first pass remembers the
    observed snapshot. *)
Theorem pass_without_correction (pathname : string) (keys : list string)
    (options : option (list (string * UseQueryStateOptions)))
    (searchParams : URLSearchParams.t) (s : option URLSearchParams.t)
    (log : list string) :
  forallb
    (fun key =>
       negb (shouldUpdateQueryState key
               (nullish (URLSearchParams.get searchParams key) "")
               (optionsFor options key) (URLSearchParams.has searchParams key)
               (if present s then s else Some searchParams) (negb (present s))))
    keys = true ->
  exec (useQueriesState_effect keys options pathname searchParams)
    {| _stableSearchParams := s; _paramUpdates := []; router := log |}
  = {| _stableSearchParams := if present s then s else Some searchParams;
       _paramUpdates := []; router := log |}.
Proof.
  rewrite useQueriesState_effect_exec.
  induction keys as [|key keys IH]; intros H; [reflexivity|].
  cbn [forallb] in H. apply andb_true_iff in H. destruct H as [Hk Hks].
  apply negb_true_iff in Hk.
  cbn [for_each]. rewrite exec_bind.
  fold (exec (effect_body options pathname searchParams (negb (present s)) key)
          {| _stableSearchParams := if present s then s else Some searchParams;
             _paramUpdates := []; router := log |}).
  rewrite effect_body_exec. cbv zeta. rewrite Hk.
  exact (IH Hks).
Qed.

Lemma pass_without_correction_witness :
  let options := Some [("page", {| defaultValue := given "1"; schema := missing;
                                   onParseError := missing |})] in
  let searchParams := [("page", "3"); ("sort", "name")] in
  let s := Some [("page", "2")] in
  forallb
    (fun key =>
       negb (shouldUpdateQueryState key
               (nullish (URLSearchParams.get searchParams key) "")
               (optionsFor options key) (URLSearchParams.has searchParams key)
               (if present s then s else Some searchParams) (negb (present s))))
    ["page"; "sort"] = true
  /\ exec (useQueriesState_effect ["page"; "sort"] options "/list" searchParams)
       {| _stableSearchParams := s; _paramUpdates := []; router := [] |}
     = {| _stableSearchParams := if present s then s else Some searchParams;
          _paramUpdates := []; router := [] |}.
Proof.
  cbv zeta. split; [reflexivity|].
  apply (pass_without_correction "/list" ["page"; "sort"]
           (Some [("page", {| defaultValue := given "1"; schema := missing;
                              onParseError := missing |})])
           [("page", "3"); ("sort", "name")] (Some [("page", "2")]) []).
  reflexivity.
Defined.

(** X14.  A batch hook that tracks a single key passes exactly as the
    single-key hook does with that key's options. *)
Theorem single_tracked_key_as_useQueryState (pathname key : string)
    (options : option (list (string * UseQueryStateOptions)))
    (searchParams : URLSearchParams.t) (s : option URLSearchParams.t)
    (log : list string) :
  exec (useQueriesState_effect [key] options pathname searchParams)
    {| _stableSearchParams := s; _paramUpdates := []; router := log |}
  = exec (useQueryState_effect key (optionsFor options key) pathname searchParams)
      {| _stableSearchParams := s; _paramUpdates := []; router := log |}.
Proof.
  rewrite useQueriesState_effect_exec, useQueryState_effect_exec.
  cbn [for_each]. rewrite exec_bind.
  fold (exec (effect_body options pathname searchParams (negb (present s)) key)
          {| _stableSearchParams := if present s then s else Some searchParams;
             _paramUpdates := []; router := log |}).
  rewrite effect_body_exec. cbv zeta.
  destruct (shouldUpdateQueryState _ _ _ _ _ _); [|reflexivity].
  destruct (opt_eqb _ _); reflexivity.
Qed.

Module PlainObjectFacts.

Lemma lookup_None {A} (own : list (string * A)) (key : string) :
  lookup own key = None <-> ~ In key (map fst own).
Proof.
  induction own as [|[k x] own IH]; simpl; [tauto|].
  destruct (String.eqb_spec k key) as [->|Hk].
  - split; [discriminate | intros H; exfalso; apply H; now left].
  - rewrite IH. split; [intros H [E|E]; [congruence | contradiction] | tauto].
Qed.

Lemma lookup_overwrite (own : list (string * option string)) (key name : string)
    (value x : option string) :
  lookup own key = Some x ->
  lookup (overwrite own key value) name
  = if String.eqb key name then Some value else lookup own name.
Proof.
  induction own as [|[k y] own IH]; simpl; [discriminate|].
  destruct (String.eqb_spec k key) as [->|Hk]; simpl.
  - intros _. now destruct (String.eqb key name).
  - intros H. rewrite (IH H).
    destruct (String.eqb_spec key name) as [E|E]; [|reflexivity].
    subst name. now destruct (String.eqb_spec k key).
Qed.

Lemma names_overwrite (own : list (string * option string)) (key : string)
    (value : option string) :
  map fst (overwrite own key value) = map fst own.
Proof.
  induction own as [|[k y] own IH]; simpl; [reflexivity|].
  destruct (String.eqb k key); simpl; [reflexivity | now rewrite IH].
Qed.

Lemma lookup_append (own : list (string * option string)) (key name : string)
    (value : option string) :
  lookup own key = None ->
  lookup (own ++ [(key, value)])%list name
  = if String.eqb key name then Some value else lookup own name.
Proof.
  induction own as [|[k y] own IH]; simpl; [reflexivity|].
  destruct (String.eqb_spec k key) as [->|Hk]; [discriminate|].
  intros H. rewrite (IH H).
  destruct (String.eqb_spec key name) as [E|E]; [|reflexivity].
  subst name. now destruct (String.eqb_spec k key).
Qed.

Lemma lookup_insert_index (n : N) (own : list (string * option string))
    (key name : string) (value : option string) :
  lookup own key = None ->
  lookup (insert_index n key value own) name
  = if String.eqb key name then Some value else lookup own name.
Proof.
  induction own as [|[k y] own IH]; simpl; [reflexivity|].
  destruct (String.eqb_spec k key) as [->|Hk]; [discriminate|].
  intros H.
  destruct (array_index k) as [m|]; [destruct (m <? n)%N|]; simpl;
    try reflexivity.
  rewrite (IH H).
  destruct (String.eqb_spec key name) as [E|E]; [|reflexivity].
  subst name. now destruct (String.eqb_spec k key).
Qed.

Lemma lookup_create (own : list (string * option string)) (key name : string)
    (value : option string) :
  lookup own key = None ->
  lookup (create own key value) name
  = if String.eqb key name then Some value else lookup own name.
Proof.
  unfold create. destruct (array_index key).
  - apply lookup_insert_index.
  - apply lookup_append.
Qed.

Lemma in_insert_index (n : N) (own : list (string * option string))
    (key name : string) (value : option string) :
  In name (map fst (insert_index n key value own))
  -> name = key \/ In name (map fst own).
Proof.
  induction own as [|[k y] own IH]; simpl.
  - intros [<-|[]]. now left.
  - destruct (array_index k) as [m|]; [destruct (m <? n)%N|]; simpl;
      try (intros [<-|[<-|H]]; auto).
    intros [<-|H]; [auto|]. destruct (IH H); auto.
Qed.

Lemma NoDup_create (own : list (string * option string)) (key : string)
    (value : option string) :
  lookup own key = None ->
  NoDup (map fst own) -> NoDup (map fst (create own key value)).
Proof.
  intros Hk. apply lookup_None in Hk. unfold create.
  destruct (array_index key) as [n|].
  - induction own as [|[k y] own IH]; simpl; intros H.
    + constructor; [intros [] | constructor].
    + inversion H as [|? ? Hnk Hrest]; subst.
      simpl in Hk.
      assert (Hown : ~ In key (map fst own)) by tauto.
      assert (Hne : k <> key) by tauto.
      destruct (array_index k) as [m|]; [destruct (m <? n)%N|]; simpl;
        try (constructor; [simpl; tauto | exact H]).
      constructor; [|now apply IH].
      intros Hin. destruct (in_insert_index _ _ _ _ _ Hin); [congruence | contradiction].
  - intros H. rewrite map_app. simpl.
    apply NoDup_app; [exact H | constructor; [intros [] | constructor] |].
    intros x Hx [<-|[]]. contradiction.
Qed.

(** Reading a name other than ["__proto__"] after an assignment. *)
Lemma lookup_assign (object : PlainObject) (key name : string)
    (value : option string) :
  name <> "__proto__" ->
  lookup (properties (assign object key value)) name
  = if String.eqb key name then Some value else lookup (properties object) name.
Proof.
  intros Hname. unfold assign.
  destruct (lookup (properties object) key) as [x|] eqn:Hown.
  - cbn [properties]. now apply (lookup_overwrite _ _ _ _ x).
  - destruct (String.eqb_spec key "__proto__") as [->|Hk]; cbn [andb].
    + destruct (String.eqb_spec "__proto__" name) as [E|_]; [congruence|].
      destruct (inherits object).
      * now destruct value.
      * cbn [properties]. rewrite (lookup_create _ _ _ _ Hown).
        destruct (String.eqb_spec "__proto__" name); [congruence | reflexivity].
    + cbn [properties]. now apply lookup_create.
Qed.

Lemma NoDup_assign (object : PlainObject) (key : string) (value : option string) :
  NoDup (map fst (properties object)) ->
  NoDup (map fst (properties (assign object key value))).
Proof.
  intros H. unfold assign.
  destruct (lookup (properties object) key) as [x|] eqn:Hown.
  - cbn [properties]. now rewrite names_overwrite.
  - destruct (String.eqb key "__proto__" && inherits object).
    + now destruct value.
    + cbn [properties]. now apply NoDup_create.
Qed.

(** Reading ["__proto__"] after a run of assignments of one and the same
    value [v] to it, among assignments to other keys. *)
Lemma lookup_proto (searchParams : URLSearchParams.t) (keys : list string) :
  forall object,
    lookup
      (properties
         (fold_left
            (fun object key => assign object key (URLSearchParams.get searchParams key))
            keys object)) "__proto__"
    = let v := URLSearchParams.get searchParams "__proto__" in
      let c := length (filter (String.eqb "__proto__") keys) in
      match lookup (properties object) "__proto__" with
      | Some x => if (1 <=? c)%nat then Some v else Some x
      | None =>
          if inherits object then
            if present v then None
            else if (2 <=? c)%nat then Some None else None
          else if (1 <=? c)%nat then Some v else None
      end.
Proof.
  induction keys as [|key keys IH]; intros object; cbv zeta.
  - cbn. destruct (lookup (properties object) "__proto__"); [reflexivity|].
    now destruct (inherits object),
      (present (URLSearchParams.get searchParams "__proto__")).
  - cbn [fold_left filter]. rewrite IH. cbv zeta.
    destruct (String.eqb_spec "__proto__" key) as [<-|Hk].
    + cbn [length]. unfold assign.
      destruct (lookup (properties object) "__proto__") as [x|] eqn:Hown.
      * cbn [properties inherits].
        rewrite (lookup_overwrite _ _ _ _ x Hown), String.eqb_refl.
        now destruct (length _).
      * rewrite String.eqb_refl. cbn [andb].
        destruct (inherits object) eqn:Hi.
        -- destruct (URLSearchParams.get searchParams "__proto__") as [str|] eqn:Hv.
           ++ rewrite Hown, Hi. reflexivity.
           ++ cbn [properties inherits present]. rewrite Hown.
              now destruct (length _) as [|[|n]].
        -- cbn [properties inherits].
           rewrite (lookup_create _ _ _ _ Hown), String.eqb_refl.
           now destruct (length _).
    + assert (Hother : lookup (properties (assign object key
                                   (URLSearchParams.get searchParams key))) "__proto__"
                       = lookup (properties object) "__proto__"
                       /\ inherits (assign object key
                                      (URLSearchParams.get searchParams key))
                          = inherits object).
      { unfold assign.
        destruct (lookup (properties object) key) as [x|] eqn:Hown.
        - cbn [properties inherits]. split; [|reflexivity].
          rewrite (lookup_overwrite _ _ _ _ x Hown).
          destruct (String.eqb_spec key "__proto__"); [congruence | reflexivity].
        - destruct (String.eqb_spec key "__proto__") as [E|_]; [congruence|].
          cbn [andb properties inherits]. split; [|reflexivity].
          rewrite (lookup_create _ _ _ _ Hown).
          destruct (String.eqb_spec key "__proto__"); [congruence | reflexivity]. }
      destruct Hother as [-> ->]. reflexivity.
Qed.

End PlainObjectFacts.

(** X15.  The object of values that [useQueriesState] returns has, for
    every tracked key other than ["__proto__"], an own property with the
    value the key has in the snapshot of the render (null when the key is
    absent); it has no own property of another name, and no name twice.  For
    a tracked key ["__proto__"] it has no own property, unless the key is
    listed at least twice and absent from the snapshot: the first assignment
    of null removes the prototype and the second creates the property. *)
Theorem queryStrings_lookup (keys : list string) (searchParams : URLSearchParams.t) :
  (forall name,
     lookup (properties (queryStrings keys searchParams)) name
     = if String.eqb name "__proto__" then
         if (2 <=? length (filter (String.eqb "__proto__") keys))%nat
            && negb (present (URLSearchParams.get searchParams "__proto__"))
         then Some None else None
       else if existsb (String.eqb name) keys
            then Some (URLSearchParams.get searchParams name)
            else None)
  /\ NoDup (map fst (properties (queryStrings keys searchParams))).
Proof.
  unfold queryStrings. split.
  - intros name. destruct (String.eqb_spec name "__proto__") as [->|Hname].
    + rewrite PlainObjectFacts.lookup_proto. cbn.
      destruct (present (URLSearchParams.get searchParams "__proto__"));
        [now rewrite andb_false_r | now rewrite andb_true_r].
    + change (@None (option string)) with (lookup (properties emptyObject) name).
      generalize emptyObject as object.
      induction keys as [|key keys IH]; intros object; [reflexivity|].
      cbn [fold_left existsb]. rewrite IH, (PlainObjectFacts.lookup_assign _ _ _ _ Hname).
      rewrite (String.eqb_sym name key).
      destruct (String.eqb_spec key name) as [->|E].
      * now destruct (existsb (String.eqb name) keys).
      * reflexivity.
  - assert (H : NoDup (map fst (properties emptyObject))) by constructor.
    revert H. generalize emptyObject as object.
    induction keys as [|key keys IH]; intros object H; [exact H|].
    cbn [fold_left]. apply IH. now apply PlainObjectFacts.NoDup_assign.
Qed.

(** Array indices are listed first, in ascending order; a tracked key
    ["__proto__"] gives no own property. *)
Example queryStrings_order :
  properties (queryStrings ["sort"; "10"; "__proto__"; "2"; "02"]
                [("sort", "name"); ("2", "b"); ("__proto__", "x")])
  = [("2", Some "b"); ("10", None); ("sort", Some "name"); ("02", None)].
Proof. reflexivity. Qed.

(** ** [safeTryPromise] *)

(** The promise [safeTryPromise] returns never rejects: it is
    fulfilled with [[value, null]] when the given promise is fulfilled and
    with [[null, reason]] when it is rejected, whereas [safeTry] lets the
    exception of its argument expression through. *)
Lemma safeTryPromise_never_rejects (T E : Type) (promise : Exn.result E T) :
  (exists tuple, safeTryPromise promise = Exn.Return tuple
                 /\ (forall v, promise = Exn.Return v -> tuple = (Some v, None))
                 /\ (forall e, promise = Exn.Throw e -> tuple = (None, Some e)))
  /\ forall e : E, Exn.call (Exn.Throw e) (@safeTry T E) = Exn.Throw e.
Proof.
  split; [|reflexivity].
  destruct promise as [v|e]; eexists; (split; [reflexivity|]);
    split; intros x H; inversion H; reflexivity.
Qed.

(** ** [cx] *)

Module TrimEndFacts.
Import TrimEnd.

Lemma strip_length (n : nat) :
  forall r, length r <= n -> strip (strip r) = strip r.
Proof.
  induction n as [|n IH]; intros r Hn.
  - destruct r; [reflexivity | simpl in Hn; lia].
  - destruct r as [|c r1]; [reflexivity|].
    simpl in Hn. cbn [strip].
    destruct (ascii_space c) eqn:Hc; [apply IH; lia|].
    destruct r1 as [|c2 r2].
    + cbn [strip]. now rewrite Hc.
    + simpl in Hn. destruct (space2 c c2) eqn:H2; [apply IH; lia|].
      destruct r2 as [|c3 r3].
      * cbn [strip]. now rewrite Hc, H2.
      * simpl in Hn. destruct (space3 c c2 c3) eqn:H3; [apply IH; lia|].
        cbn [strip]. now rewrite Hc, H2, H3.
Qed.

Lemma strip_idempotent (r : list ascii) : strip (strip r) = strip r.
Proof. apply (strip_length (length r)). lia. Qed.

(** What is left after [strip] does not start with an ASCII space. *)
Lemma strip_head (r : list ascii) :
  match strip r with
  | c :: _ => ascii_space c = false
  | [] => True
  end.
Proof.
  assert (H : forall n r, length r <= n ->
                match strip r with c :: _ => ascii_space c = false | [] => True end).
  { clear r. induction n as [|n IH]; intros r Hn.
    - destruct r; [exact I | simpl in Hn; lia].
    - destruct r as [|c r1]; [exact I|].
      simpl in Hn. cbn [strip].
      destruct (ascii_space c) eqn:Hc; [apply IH; lia|].
      destruct r1 as [|c2 r2]; [exact Hc|].
      simpl in Hn. destruct (space2 c c2); [apply IH; lia|].
      destruct r2 as [|c3 r3]; [exact Hc|].
      simpl in Hn. destruct (space3 c c2 c3); [apply IH; lia | exact Hc]. }
  apply (H (length r)). lia.
Qed.

Lemma strip_plain (c : ascii) (r : list ascii) :
  nat_of_ascii c < 128 -> ascii_space c = false -> strip (c :: r) = c :: r.
Proof.
  intros Hlt Hc. cbn [strip]. rewrite Hc.
  destruct r as [|c2 r2]; [reflexivity|].
  assert (H2 : space2 c c2 = false).
  { unfold space2. apply andb_false_iff. right. apply Nat.eqb_neq. lia. }
  rewrite H2. destruct r2 as [|c3 r3]; [reflexivity|].
  assert (H3 : space3 c c2 c3 = false).
  { unfold space3.
    assert (E1 : (nat_of_ascii c =? 128)%nat = false) by (apply Nat.eqb_neq; lia).
    assert (E2 : (128 <=? nat_of_ascii c)%nat = false) by (apply Nat.leb_gt; lia).
    assert (E3 : (nat_of_ascii c =? 168)%nat = false) by (apply Nat.eqb_neq; lia).
    assert (E4 : (nat_of_ascii c =? 169)%nat = false) by (apply Nat.eqb_neq; lia).
    assert (E5 : (nat_of_ascii c =? 175)%nat = false) by (apply Nat.eqb_neq; lia).
    assert (E6 : (nat_of_ascii c =? 159)%nat = false) by (apply Nat.eqb_neq; lia).
    assert (E7 : (nat_of_ascii c =? 191)%nat = false) by (apply Nat.eqb_neq; lia).
    rewrite E1, E2, E3, E4, E5, E6, E7. simpl.
    now rewrite !andb_false_r. }
  now rewrite H3.
Qed.

Lemma list_of_append (a b : string) :
  list_ascii_of_string (a ++ b)
  = (list_ascii_of_string a ++ list_ascii_of_string b)%list.
Proof. induction a as [|c a IH]; simpl; [reflexivity | now rewrite IH]. Qed.

Lemma rev_last_byte (s : string) (c : ascii) :
  last_byte s = Some c ->
  exists r, rev (list_ascii_of_string s) = c :: r.
Proof.
  induction s as [|x s IH]; [discriminate|].
  destruct s as [|y s].
  - simpl. intros H. inversion H. now exists [].
  - intros H. change (last_byte (String x (String y s))) with (last_byte (String y s)) in H.
    destruct (IH H) as [r Hr].
    exists (r ++ [x])%list.
    change (list_ascii_of_string (String x (String y s)))
      with (x :: list_ascii_of_string (String y s)).
    cbn [rev]. now rewrite Hr.
Qed.

(** A string that ends plain loses exactly the space appended to it. *)
Lemma trimEnd_appended_space (s : string) :
  ends_plain s = true -> trimEnd (s ++ " ") = s.
Proof.
  unfold ends_plain, trimEnd. intros H.
  destruct (last_byte s) as [c|] eqn:Hl; [|discriminate].
  apply andb_true_iff in H. destruct H as [Hlt Hsp].
  apply Nat.ltb_lt in Hlt. apply negb_true_iff in Hsp.
  destruct (rev_last_byte s c Hl) as [r Hr].
  rewrite list_of_append, rev_app_distr. cbn [list_ascii_of_string rev app].
  change (strip (" "%char :: rev (list_ascii_of_string s)))
    with (strip (rev (list_ascii_of_string s))).
  rewrite Hr, (strip_plain c r Hlt Hsp), <- Hr, rev_involutive.
  apply string_of_list_ascii_of_string.
Qed.

End TrimEndFacts.

Lemma append_nil_r (s : string) : s ++ "" = s.
Proof. induction s as [|c s IH]; simpl; [reflexivity | now rewrite IH]. Qed.

Lemma spaced_app (a b : list string) : spaced (a ++ b) = spaced a ++ spaced b.
Proof.
  induction a as [|w a IH]; simpl; [reflexivity|].
  now rewrite IH, !UrlEncodedFacts.append_assoc.
Qed.

(** The loop of [cx] appends every selected class name and a space. *)
Lemma cx_loop (inputs : list ClassValue) (result : string) :
  fold_left cx_step inputs result = result ++ spaced (flat_map selected inputs).
Proof.
  revert result. induction inputs as [|input inputs IH]; intros result; simpl.
  - now rewrite append_nil_r.
  - rewrite IH, spaced_app, <- UrlEncodedFacts.append_assoc. f_equal.
    destruct input as [s|entries|b| |]; simpl; try now rewrite append_nil_r.
    + destruct (truthy s); simpl; rewrite ?append_nil_r; reflexivity.
    + revert result. induction entries as [|[k b] entries IHe]; intros result; simpl.
      * now rewrite append_nil_r.
      * rewrite IHe. destruct b; simpl; [|reflexivity].
        now rewrite !UrlEncodedFacts.append_assoc.
Qed.

(** X16.  The result of [cx] has no white space at its end: [trimEnd] leaves
    it as it is, and its last byte, when it has one, is no ASCII space. *)
Theorem cx_has_no_trailing_space (inputs : list ClassValue) :
  TrimEnd.trimEnd (cx inputs) = cx inputs
  /\ match rev (list_ascii_of_string (cx inputs)) with
     | c :: _ => TrimEnd.ascii_space c = false
     | [] => True
     end.
Proof.
  unfold cx, TrimEnd.trimEnd.
  rewrite !list_ascii_of_string_of_list_ascii, !rev_involutive.
  split.
  - now rewrite TrimEndFacts.strip_idempotent.
  - apply TrimEndFacts.strip_head.
Qed.

Lemma joined_cons (x : string) (ws : list string) (w : string) :
  joined (x :: ws ++ [w]) = x ++ " " ++ joined (ws ++ [w]).
Proof. destruct ws; reflexivity. Qed.

Lemma spaced_joined (ws : list string) (w : string) :
  spaced (ws ++ [w]) = joined (ws ++ [w]) ++ " ".
Proof.
  induction ws as [|x ws IH].
  - simpl. rewrite ?append_nil_r. reflexivity.
  - change ((x :: ws) ++ [w])%list with (x :: ws ++ [w]).
    rewrite joined_cons. cbn [spaced]. rewrite IH.
    now rewrite !UrlEncodedFacts.append_assoc.
Qed.

Lemma last_byte_append (a b : string) :
  b <> "" -> last_byte (a ++ b) = last_byte b.
Proof.
  intros Hb. induction a as [|c a IH]; [reflexivity|].
  cbn [append]. destruct (a ++ b) as [|y r] eqn:E.
  - destruct a; [simpl in E; contradiction | discriminate E].
  - exact IH.
Qed.

Lemma ends_plain_joined (ws : list string) (w : string) :
  ends_plain w = true -> ends_plain (joined (ws ++ [w])) = true.
Proof.
  intros H.
  assert (Hw : w <> "") by (intros ->; discriminate H).
  induction ws as [|x ws IH]; [exact H|].
  change ((x :: ws) ++ [w])%list with (x :: ws ++ [w]).
  rewrite joined_cons.
  unfold ends_plain in *.
  assert (Hj : joined (ws ++ [w]) <> "")
    by (intros E; rewrite E in IH; discriminate IH).
  rewrite <- UrlEncodedFacts.append_assoc, last_byte_append; assumption.
Qed.

(** X17.  When the last class name selected ends in an ASCII byte that is no
    white space, [cx] gives the selected class names (the non-empty strings
    and the keys of the records whose value is true, in order) with one
    space between them; null, undefined, booleans and empty strings
    contribute nothing. *)
Theorem cx_joins_selected (inputs : list ClassValue) (ws : list string) (w : string) :
  flat_map selected inputs = (ws ++ [w])%list ->
  ends_plain w = true ->
  cx inputs = joined (ws ++ [w]).
Proof.
  intros Hsel Hw. unfold cx. rewrite cx_loop, Hsel. cbn [append].
  rewrite spaced_joined.
  apply TrimEndFacts.trimEnd_appended_space, ends_plain_joined, Hw.
Qed.

Lemma cx_joins_selected_witness :
  let inputs := [class_string "flex"; class_boolean false; class_null;
                 class_record [("gap-2", true); ("hidden", false)];
                 class_string ""; class_string "p-4"] in
  flat_map selected inputs = (["flex"; "gap-2"] ++ ["p-4"])%list
  /\ ends_plain "p-4" = true
  /\ cx inputs = "flex gap-2 p-4".
Proof.
  cbv zeta. split; [reflexivity|]. split; [reflexivity|].
  apply (cx_joins_selected
           [class_string "flex"; class_boolean false; class_null;
            class_record [("gap-2", true); ("hidden", false)];
            class_string ""; class_string "p-4"]
           ["flex"; "gap-2"] "p-4"); reflexivity.
Defined.

(** Without a selected class name [cx] gives the empty string. *)
Lemma cx_nothing_selected (inputs : list ClassValue) :
  flat_map selected inputs = [] -> cx inputs = "".
Proof. intros H. unfold cx. now rewrite cx_loop, H. Qed.

(** ** [createVariants] *)

(** X18.  [createVariants] falls back to the [default] entry only for a
    selection that is missing or empty.  A variant name that the
    configuration does not have selects nothing: the result is that of the
    base and size classes alone. *)
Theorem unknown_variant_selects_nothing
    (config : CreateVariants.TConfig) (name : string) (size : option string) :
  truthy name = true ->
  lookup (CreateVariants.variant config) name = None ->
  CreateVariants.createVariants config
    (Some {| CreateVariants.props_variant := Some name;
             CreateVariants.props_size := size |})
  = cx [CreateVariants.base config;
        CreateVariants.index (CreateVariants.size config)
          (CreateVariants.choice size)].
Proof.
  intros Hname Hlookup.
  unfold CreateVariants.createVariants, CreateVariants.index at 1,
    CreateVariants.choice at 1.
  cbn [CreateVariants.props_variant CreateVariants.props_size].
  rewrite Hname, Hlookup. reflexivity.
Qed.

Lemma unknown_variant_selects_nothing_witness :
  let config :=
    {| CreateVariants.base := class_string "inline-flex";
       CreateVariants.variant := [("default", class_string "border");
                                  ("ghost", class_string "text-stone-500")];
       CreateVariants.size := [("default", class_string "text-base");
                               ("sm", class_string "text-sm")] |} in
  truthy "outline" = true
  /\ lookup (CreateVariants.variant config) "outline" = None
  /\ CreateVariants.createVariants config
       (Some {| CreateVariants.props_variant := Some "outline";
                CreateVariants.props_size := Some "sm" |})
     = cx [CreateVariants.base config;
           CreateVariants.index (CreateVariants.size config)
             (CreateVariants.choice (Some "sm"))].
Proof.
  cbv zeta. split; [reflexivity|]. split; [reflexivity|].
  apply (unknown_variant_selects_nothing
           {| CreateVariants.base := class_string "inline-flex";
              CreateVariants.variant := [("default", class_string "border");
                                         ("ghost", class_string "text-stone-500")];
              CreateVariants.size := [("default", class_string "text-base");
                                      ("sm", class_string "text-sm")] |}
           "outline" (Some "sm")); reflexivity.
Defined.

(** The example of the source's documentation. *)
Example createVariants_documented :
  let button :=
    CreateVariants.createVariants
      {| CreateVariants.base := class_string "inline-flex";
         CreateVariants.variant := [("default", class_string "bg-gray-200");
                                    ("primary", class_string "bg-blue-500")];
         CreateVariants.size := [("default", class_string "px-4 py-2");
                                 ("sm", class_string "px-2 py-1")] |} in
  button None = "inline-flex bg-gray-200 px-4 py-2"
  /\ button (Some {| CreateVariants.props_variant := Some "primary";
                     CreateVariants.props_size := Some "sm" |})
     = "inline-flex bg-blue-500 px-2 py-1".
Proof. split; reflexivity. Qed.

(** ** The page that uses the hook *)

Module PageFacts.
Import ScriptConfigurationPage.

(** What a handler passes to [setStep] is the key of one of the tabs. *)
Lemma element_key_accepted (i : Z) (tab : ConfigurationTab) :
  element configTabs i = Some tab ->
  z_literal (map key configTabs) (key tab) = Some (key tab).
Proof.
  unfold element. destruct (i <? 0)%Z; [discriminate|].
  intros H. apply nth_error_In in H.
  unfold z_literal.
  assert (E : existsb (String.eqb (key tab)) (map key configTabs) = true).
  { apply existsb_exists. exists (key tab). split.
    - now apply in_map.
    - apply String.eqb_refl. }
  now rewrite E.
Qed.

Lemma accepted_step_is_set (k : string) (p : URLSearchParams.t) :
  z_literal (map key configTabs) k = Some k ->
  updateQueryState ("step", k) p options = URLSearchParams.set p "step" k.
Proof.
  intros H. unfold updateQueryState, options.
  cbn [read schema defaultValue onParseError]. now rewrite H.
Qed.

End PageFacts.

(** X19.  On a tab, Back asks for the tab before it and Next for the tab
    after it; Back on the first tab and Next on the last one return without
    asking for anything. *)
Theorem tab_navigation (i : nat) (tab : ScriptConfigurationPage.ConfigurationTab) :
  nth_error ScriptConfigurationPage.configTabs i = Some tab ->
  ScriptConfigurationPage.onBack (Some (ScriptConfigurationPage.key tab))
  = Exn.Return
      match i with
      | 0 => None
      | S j => option_map ScriptConfigurationPage.key
                 (nth_error ScriptConfigurationPage.configTabs j)
      end
  /\ ScriptConfigurationPage.onNext (Some (ScriptConfigurationPage.key tab))
     = Exn.Return
         (option_map ScriptConfigurationPage.key
            (nth_error ScriptConfigurationPage.configTabs (S i))).
Proof.
  destruct i as [|[|[|[|i]]]]; cbn; intros H;
    try (inversion H; subst tab; split; reflexivity).
  destruct i; discriminate H.
Qed.

Lemma tab_navigation_witness :
  nth_error ScriptConfigurationPage.configTabs 1
  = Some {| ScriptConfigurationPage.key := "persona";
            ScriptConfigurationPage.displayText := "Persona" |}
  /\ ScriptConfigurationPage.onBack (Some "persona") = Exn.Return (Some "goal")
  /\ ScriptConfigurationPage.onNext (Some "persona") = Exn.Return (Some "rules").
Proof.
  split; [reflexivity|].
  apply (tab_navigation 1
           {| ScriptConfigurationPage.key := "persona";
              ScriptConfigurationPage.displayText := "Persona" |}).
  reflexivity.
Defined.

(** X20.  When the step of the render is none of the tabs (it is null while
    the key is absent from the query string), Next asks for the first tab,
    and Back throws: its guard tests [currentIndex < -1], which -1 passes,
    and the handler reads [.key] of [configTabs[-2]]. *)
Theorem handlers_on_unknown_step (step : option string) :
  existsb (fun tab => opt_eqb (Some (ScriptConfigurationPage.key tab)) step)
    ScriptConfigurationPage.configTabs = false ->
  ScriptConfigurationPage.onBack step
  = Exn.Throw ScriptConfigurationPage.cannot_read_properties_of_undefined
  /\ ScriptConfigurationPage.onNext step = Exn.Return (Some "goal").
Proof.
  cbn [existsb ScriptConfigurationPage.configTabs ScriptConfigurationPage.key].
  intros H.
  apply orb_false_elim in H. destruct H as [H1 H].
  apply orb_false_elim in H. destruct H as [H2 H].
  apply orb_false_elim in H. destruct H as [H3 H].
  apply orb_false_elim in H. destruct H as [H4 _].
  unfold ScriptConfigurationPage.onBack, ScriptConfigurationPage.onNext,
    ScriptConfigurationPage.findIndex.
  cbn [ScriptConfigurationPage.findIndex_from ScriptConfigurationPage.configTabs
       ScriptConfigurationPage.key].
  rewrite H1, H2, H3, H4. split; reflexivity.
Qed.

Lemma handlers_on_unknown_step_witness :
  existsb (fun tab => opt_eqb (Some (ScriptConfigurationPage.key tab)) None)
    ScriptConfigurationPage.configTabs = false
  /\ ScriptConfigurationPage.onBack None
     = Exn.Throw ScriptConfigurationPage.cannot_read_properties_of_undefined
  /\ ScriptConfigurationPage.onNext None = Exn.Return (Some "goal").
Proof.
  split; [reflexivity|].
  apply (handlers_on_unknown_step None). reflexivity.
Defined.

(** X21.  Whatever Back or Next passes to [setStep] is the key of a tab:
    the page's schema accepts it, and the hook's update writes it as it is,
    with no fallback to the default. *)
Theorem requested_step_is_written (step : option string) (k : string)
    (p : URLSearchParams.t) :
  ScriptConfigurationPage.onBack step = Exn.Return (Some k)
  \/ ScriptConfigurationPage.onNext step = Exn.Return (Some k) ->
  updateQueryState ("step", k) p ScriptConfigurationPage.options
  = URLSearchParams.set p "step" k.
Proof.
  intros H. apply PageFacts.accepted_step_is_set.
  unfold ScriptConfigurationPage.onBack, ScriptConfigurationPage.onNext in H.
  destruct H as [H|H];
    match type of H with
    | (if ?c then _ else _) = _ => destruct c; [discriminate H|]
    end;
    match type of H with
    | match ScriptConfigurationPage.element _ ?i with _ => _ end = _ =>
        destruct (ScriptConfigurationPage.element
                    ScriptConfigurationPage.configTabs i) as [tab|] eqn:E;
        [|discriminate H]
    end;
    inversion H; subst k; exact (PageFacts.element_key_accepted _ _ E).
Qed.

Lemma requested_step_is_written_witness :
  (ScriptConfigurationPage.onBack (Some "rules") = Exn.Return (Some "persona")
   \/ ScriptConfigurationPage.onNext (Some "rules") = Exn.Return (Some "persona"))
  /\ updateQueryState ("step", "persona") [("step", "rules")]
       ScriptConfigurationPage.options
     = URLSearchParams.set [("step", "rules")] "step" "persona".
Proof.
  assert (H : ScriptConfigurationPage.onBack (Some "rules") = Exn.Return (Some "persona")
              \/ ScriptConfigurationPage.onNext (Some "rules")
                 = Exn.Return (Some "persona"))
    by (left; reflexivity).
  split; [exact H|].
  apply (requested_step_is_written (Some "rules") "persona" [("step", "rules")] H).
Defined.

(** ** [useQueryString] *)

Module UseQueryStringFacts.
Import UseQueryString.

Lemma updated_value (p : URLSearchParams.t) (key value : string) :
  URLSearchParams.of_string (getSearchParamsWithUpdatedValue p key value)
  = URLSearchParams.set p key value.
Proof. unfold getSearchParamsWithUpdatedValue. now rewrite !of_string_toString. Qed.

Lemma removed_value (p : URLSearchParams.t) (key : string) :
  URLSearchParams.of_string (getSearchParamsWithRemovedValue p key)
  = URLSearchParams.delete p key.
Proof. unfold getSearchParamsWithRemovedValue. now rewrite !of_string_toString. Qed.

(** The query string made is the snapshot of the render with the key set or
    deleted. *)
Lemma createQueryString_cases (options : option UseQueryStateOptions)
    (p : URLSearchParams.t) (key value : string) :
  (exists w, URLSearchParams.of_string (createQueryString options p key value)
             = URLSearchParams.set p key w)
  \/ URLSearchParams.of_string (createQueryString options p key value)
     = URLSearchParams.delete p key.
Proof.
  unfold createQueryString.
  destruct (negb (truthy value)); [right; apply removed_value|].
  destruct (render_schema options) as [safeParse|];
    [|left; eexists; apply updated_value].
  destruct (safeParse value); [left; eexists; apply updated_value|].
  destruct (OnParseError_eqb (render_onParseError options) fallback).
  - destruct (render_defaultValue options) as [d|]; [|right; apply removed_value].
    destruct (truthy d); [left; eexists; apply updated_value | right; apply removed_value].
  - destruct (OnParseError_eqb (render_onParseError options) remove);
      [right; apply removed_value | left; eexists; apply updated_value].
Qed.

End UseQueryStringFacts.

(** X22.  The query string that [useQueryString] navigates to is built on
    the snapshot of the current render: the tuples of every other key are
    those of that snapshot, in their order and with their values. *)
Theorem createQueryString_keeps_other_keys
    (options : option UseQueryStateOptions) (searchParams : URLSearchParams.t)
    (key value : string) :
  others [key]
    (URLSearchParams.of_string
       (UseQueryString.createQueryString options searchParams key value))
  = others [key] searchParams.
Proof.
  destruct (UseQueryStringFacts.createQueryString_cases options searchParams key value)
    as [[w ->] | ->].
  - apply others_set. now left.
  - apply others_delete. now left.
Qed.

(** X23.  Under the fallback policy and with a schema, if there is one,
    that never gives the empty string as output, the effect of
    [useQueryString] does not fire again on the snapshot it has just
    navigated to. *)
Theorem useQueryString_settles (key v : string)
    (options : option UseQueryStateOptions) (searchParams : URLSearchParams.t) :
  (forall validator, UseQueryString.render_schema options = Some validator ->
                     forall raw, validator raw <> Some "") ->
  UseQueryString.render_onParseError options = fallback ->
  UseQueryString.effect_value key options searchParams = Some v ->
  UseQueryString.effect_value key options
    (URLSearchParams.of_string
       (UseQueryString.createQueryString options searchParams key v))
  = None.
Proof.
  intros Hout Hpol Hv.
  unfold UseQueryString.effect_value in Hv.
  destruct (_ || _) in Hv; [|discriminate Hv]. inversion Hv as [Ev]. clear Hv.
  unfold UseQueryString.effect_value, UseQueryString.createQueryString.
  rewrite Hpol. cbn [OnParseError_eqb].
  destruct (UseQueryString.render_defaultValue options) as [d|] eqn:Hd;
    cbn [nullish truthy_opt].
  - destruct (truthy d) eqn:Ht; cbn [negb].
    + assert (Hset : forall w, truthy w = true ->
                (let p := URLSearchParams.set searchParams key w in
                 if (URLSearchParams.has p key
                     && negb (truthy_opt (URLSearchParams.get p key)))
                    || (negb (URLSearchParams.has p key) && true)
                 then Some d else None) = None).
      { intros w Hw. cbv zeta.
        rewrite has_get, get_set, String.eqb_refl. cbn [present truthy_opt negb andb].
        now rewrite Hw. }
      destruct (UseQueryString.render_schema options) as [safeParse|] eqn:Hs.
      * destruct (safeParse d) as [data|] eqn:Hdata.
        -- rewrite UseQueryStringFacts.updated_value. apply Hset.
           apply truthy_true. intros ->. exact (Hout safeParse eq_refl d Hdata).
        -- rewrite UseQueryStringFacts.updated_value. now apply Hset.
      * rewrite UseQueryStringFacts.updated_value. now apply Hset.
    + rewrite UseQueryStringFacts.removed_value.
      rewrite has_get, get_delete, String.eqb_refl. reflexivity.
  - cbn [truthy negb]. rewrite UseQueryStringFacts.removed_value.
    rewrite has_get, get_delete, String.eqb_refl. reflexivity.
Qed.

Lemma useQueryString_settles_witness :
  let options := Some {| defaultValue := given "name"; schema := missing;
                         onParseError := missing |} in
  (forall validator, UseQueryString.render_schema options = Some validator ->
                     forall raw, validator raw <> Some "")
  /\ UseQueryString.render_onParseError options = fallback
  /\ UseQueryString.effect_value "sort" options [("q", "x")] = Some "name"
  /\ UseQueryString.effect_value "sort" options
       (URLSearchParams.of_string
          (UseQueryString.createQueryString options [("q", "x")] "sort" "name"))
     = None.
Proof.
  cbv zeta.
  assert (H : forall validator,
            UseQueryString.render_schema
              (Some {| defaultValue := given "name"; schema := missing;
                       onParseError := missing |}) = Some validator ->
            forall raw, validator raw <> Some "")
    by (intros validator Hs; discriminate Hs).
  split; [exact H|]. split; [reflexivity|]. split; [reflexivity|].
  apply (useQueryString_settles "sort" "name" _ [("q", "x")] H eq_refl eq_refl).
Defined.

(** Under the remove policy, with a default the schema rejects, the effect
    fires again on the snapshot it has navigated to. *)
Example useQueryString_fires_again :
  let options := Some {| defaultValue := given "all";
                         schema := given (z_enum ["open"; "closed"]);
                         onParseError := given remove |} in
  UseQueryString.effect_value "status" options [] = Some "all"
  /\ UseQueryString.createQueryString options [] "status" "all" = ""
  /\ UseQueryString.effect_value "status" options (URLSearchParams.of_string "")
     = Some "all".
Proof. split; [|split]; reflexivity. Qed.

(** ** More on the predicate and on the batch pass *)

(** X24.  [shouldUpdateQueryState] depends on the options only through the
    default that is read and through whether a schema is there: a property
    set to [undefined] counts as a missing one, although [Object.keys] counts
    it, and [onParseError] plays no part. *)
Theorem predicate_reads_options (key value : string) (o o' : UseQueryStateOptions)
    (paramExists isInitialMount : bool)
    (previousSearchParams : option URLSearchParams.t) :
  read (defaultValue o) = read (defaultValue o') ->
  present (read (schema o)) = present (read (schema o')) ->
  shouldUpdateQueryState key value (Some o) paramExists previousSearchParams
    isInitialMount
  = shouldUpdateQueryState key value (Some o') paramExists previousSearchParams
      isInitialMount.
Proof.
  destruct o as [dv sc pe], o' as [dv' sc' pe']. simpl.
  intros Hd Hs.
  assert (E : forall dv sc pe,
            shouldUpdateQueryState key value
              (Some {| defaultValue := dv; schema := sc; onParseError := pe |})
              paramExists previousSearchParams isInitialMount
            = (isInitialMount && truthy_opt (read dv)
                 && negb (opt_eqb (Some value) (read dv)))
              || (isInitialMount && negb (truthy_opt (read dv)) && present (read sc))
              || (paramExists && negb (truthy value))
              || (negb paramExists && truthy_opt (read dv))
              || (present (read sc)
                  && negb (opt_eqb (Some value)
                             match previousSearchParams with
                             | Some p => URLSearchParams.get p key
                             | None => None
                             end))).
  { clear. intros dv sc pe.
    unfold shouldUpdateQueryState, Object_keys_length.
    destruct dv as [ | |d], sc as [ | |v], pe as [ | |x]; simpl;
      try destruct (truthy d); simpl;
      destruct paramExists, isInitialMount, (truthy value); simpl;
      rewrite ?orb_false_r; reflexivity. }
  now rewrite !E, Hd, Hs.
Qed.

Lemma predicate_reads_options_witness :
  let o := {| defaultValue := undefined; schema := missing; onParseError := given remove |} in
  let o' := emptyOptions in
  read (defaultValue o) = read (defaultValue o')
  /\ present (read (schema o)) = present (read (schema o'))
  /\ shouldUpdateQueryState "sort" "" (Some o) true (Some [("sort", "")]) false
     = shouldUpdateQueryState "sort" "" (Some o') true (Some [("sort", "")]) false.
Proof.
  cbv zeta. split; [reflexivity|]. split; [reflexivity|].
  apply (predicate_reads_options "sort" ""
           {| defaultValue := undefined; schema := missing; onParseError := given remove |}
           emptyOptions true false (Some [("sort", "")])); reflexivity.
Defined.

Lemma pick_length {A} (flags : list bool) (l : list A) :
  length (pick flags l) <= length l.
Proof.
  revert flags. induction l as [|a l IH]; intros [|[] flags]; simpl; try lia.
  - specialize (IH flags). lia.
  - specialize (IH flags). lia.
Qed.

Lemma pick_In {A} (flags : list bool) (l : list A) (a : A) :
  In a (pick flags l) -> In a l.
Proof.
  revert flags. induction l as [|b l IH]; intros [|[] flags]; simpl; try tauto.
  - intros [->|H]; [now left | right; now apply (IH flags)].
  - intros H. right. now apply (IH flags).
Qed.

(** The commits of a pass of the batch hook: one for each key of a
    selection of the tracked keys, in the order of the keys. *)
Lemma for_each_effect_body_picks (pathname : string)
    (options : option (list (string * UseQueryStateOptions)))
    (searchParams : URLSearchParams.t) (isInitialMount : bool) (keys : list string) :
  forall (s : option URLSearchParams.t) (log : list string),
  exists flags,
    length flags = length keys
    /\ router (exec (for_each keys (effect_body options pathname searchParams isInitialMount))
                 {| _stableSearchParams := s; _paramUpdates := []; router := log |})
       = (log ++ map (fun key =>
                        href pathname
                          (URLSearchParams.toString
                             (updateQueryState
                                (key, nullish (URLSearchParams.get searchParams key) "")
                                searchParams (optionsFor options key))))
                   (pick flags keys))%list
    /\ _paramUpdates
         (exec (for_each keys (effect_body options pathname searchParams isInitialMount))
            {| _stableSearchParams := s; _paramUpdates := []; router := log |}) = [].
Proof.
  induction keys as [|key keys IH]; intros s log.
  - exists []. cbn. rewrite app_nil_r. repeat split.
  - cbn [for_each]. rewrite exec_bind.
    fold (exec (effect_body options pathname searchParams isInitialMount key)
            {| _stableSearchParams := s; _paramUpdates := []; router := log |}).
    rewrite effect_body_exec. cbv zeta.
    destruct (shouldUpdateQueryState _ _ _ _ _ _).
    + destruct (opt_eqb _ _).
      * destruct (IH (Some searchParams) log) as [flags [Hl [Hr Hp]]].
        exists (false :: flags). cbn [pick length].
        split; [now rewrite Hl|]. split; [exact Hr | exact Hp].
      * match goal with
        | |- context [exec _ {| _stableSearchParams := ?s1; _paramUpdates := _;
                                router := ?l1 |}] =>
            destruct (IH s1 l1) as [flags [Hl [Hr Hp]]]
        end.
        exists (true :: flags). cbn [pick length map].
        split; [now rewrite Hl|]. split; [|exact Hp].
        rewrite Hr. now rewrite <- app_assoc.
    + destruct (IH s log) as [flags [Hl [Hr Hp]]].
      exists (false :: flags). cbn [pick length].
      split; [now rewrite Hl|]. split; [exact Hr | exact Hp].
Qed.

(** X25.  A pass of the batch hook makes at most one commit for each
    tracked key, in the order of the keys: the commits are those of a
    selection of the key list, one for each selected key, and every snapshot
    committed is the observed snapshot with that single key updated, so
    corrections of several keys are never committed together.  The queue of
    pending updates is empty again when the pass ends. *)
Theorem batch_pass_commits_one_key_at_a_time (pathname : string) (keys : list string)
    (options : option (list (string * UseQueryStateOptions)))
    (searchParams : URLSearchParams.t) (s : option URLSearchParams.t)
    (log : list string) :
  exists flags,
    let commits :=
      map (fun key =>
             updateQueryState (key, nullish (URLSearchParams.get searchParams key) "")
               searchParams (optionsFor options key))
        (pick flags keys) in
    length flags = length keys
    /\ router (exec (useQueriesState_effect keys options pathname searchParams)
                 {| _stableSearchParams := s; _paramUpdates := []; router := log |})
       = (log ++ map (fun u => href pathname (URLSearchParams.toString u)) commits)%list
    /\ _paramUpdates
         (exec (useQueriesState_effect keys options pathname searchParams)
            {| _stableSearchParams := s; _paramUpdates := []; router := log |}) = []
    /\ length commits <= length keys
    /\ Forall (fun u =>
                 exists key, In key keys
                   /\ u = updateQueryState
                            (key, nullish (URLSearchParams.get searchParams key) "")
                            searchParams (optionsFor options key))
         commits.
Proof.
  rewrite useQueriesState_effect_exec.
  destruct (for_each_effect_body_picks pathname options searchParams
              (negb (present s)) keys
              (if present s then s else Some searchParams) log)
    as [flags [Hl [Hr Hp]]].
  exists flags. cbv zeta.
  split; [exact Hl|]. split; [now rewrite Hr, map_map|]. split; [exact Hp|].
  split.
  - rewrite length_map. apply pick_length.
  - apply Forall_forall. intros u Hu. apply in_map_iff in Hu.
    destruct Hu as [key [<- Hk]]. exists key. split; [|reflexivity].
    exact (pick_In _ _ _ Hk).
Qed.

(** The older hook, on the snapshot where the setter of [useQueryState]
    loses the other writer's update, keeps it. *)
Example useQueryString_builds_on_live_snapshot :
  UseQueryString.createQueryString None [("z", "2"); ("sort", "a")] "sort" "b"
  = "z=2&sort=b".
Proof. reflexivity. Qed.
